(** * goworker: the worker of a Resque-compatible job processor

    A shallow embedding of [worker.go]: the status reporter ([start], [fail],
    [succeed], [finish]), the execution engine ([run]) and the worker loop
    ([work]), with the properties of the specification proved about them.

    Go values are modelled as follows.
    - a possibly-nil [error] that can be read is an [option err_value]; [held]
      adds what [fail] cannot read (a nil pointer in a non-nil interface, an
      [Error()] that panics);
    - a [*RedisConn] is passed by value and returned updated (the code mutates
      the connection behind the pointer);
    - everything else the code touches (the connection pool, the clock, the
      logger, the wait group) lives in a [World] threaded by a state monad;
    - [defer]/[recover] in [run] are written out in the order Go runs them. *)

From Stdlib Require Import ZArith String Ascii List.
From stdpp Require Import base gmap strings list.

Local Open Scope Z_scope.
Local Open Scope string_scope.
Local Open Scope list_scope.

(** ** Errors *)

(** [[]byte] buffers are kept as strings. *)
Definition bytes := string.

(** [type WorkerError struct { message string; Backtrace []string }] *)
Record WorkerError := {
  message : string;
  Backtrace : list string
}.

Definition NewWorkerError (message : string) (backtrace : list string) : WorkerError :=
  {| message := message; Backtrace := backtrace |}.

(** A non-nil value of Go's [error] interface that can be read: a valid
    [*WorkerError], or a value of another dynamic type whose [Error()]
    returns.  The type switch of [fail] distinguishes [*WorkerError] from
    every other dynamic type, and of the others only the text of [Error()] is
    ever read.  What cannot be read is an [unreadable], below. *)
Inductive err_value : Type :=
| PlainError (msg : string)
| WorkerErrorPtr (workerError : WorkerError).

(** Go's [error], when it can be read: [None] is [nil]. *)
Definition error := option err_value.

(** [errors.New] *)
Definition errors_New (text : string) : err_value := PlainError text.

(** [func (workerError *WorkerError) Error() string] and the [Error()] of the
    other error values. *)
Definition error_Error (err : err_value) : string :=
  match err with
  | PlainError msg => msg
  | WorkerErrorPtr workerError => message workerError
  end.

(** A non-nil value a panic carries, as [recover()] returns it: a string
    ([panic("...")]) or an error (a runtime error, [panic(err)]).  A
    [recover()] that returns nil is [None] in an [option panic_value]. *)
Inductive panic_value : Type :=
| PanicString (s : string)
| PanicError (e : err_value).

(** [fmt.Sprint(r)] on a recovered value. *)
Definition fmt_Sprint (r : panic_value) : string :=
  match r with
  | PanicString s => s
  | PanicError e => error_Error e
  end.

(** A non-nil [error] that [fail] cannot read: an interface that holds a nil
    [*WorkerError], which the type switch of [fail] matches and
    [typedError.Backtrace] dereferences, or a value of another dynamic type
    whose [Error()] panics with [p]. *)
Inductive unreadable : Type :=
| NilPointer
| Unprintable (p : panic_value).

(** What a variable of type [error] holds. *)
Inductive held : Type :=
| Good (err : error)
| Bad (bad : unreadable).

(** The panic of the runtime on a nil pointer or a nil interface. *)
Definition nil_dereference : panic_value :=
  PanicError (PlainError "runtime error: invalid memory address or nil pointer dereference").

(** [strings.Split(s, sep)] for a separator of one character, which is how
    [run] uses it (on a line feed). *)
Fixpoint split_from (sep : ascii) (cur : string) (s : string) : list string :=
  match s with
  | EmptyString => [cur]
  | String c s' =>
      if Ascii.eqb c sep then cur :: split_from sep EmptyString s'
      else split_from sep (cur +:+ String c EmptyString) s'
  end.

Definition strings_Split (s : string) (sep : ascii) : list string :=
  split_from sep EmptyString s.

Definition LF : ascii := Ascii.ascii_of_nat 10.

(** ** The store and its connections *)

(** Modelled from the spec: the remote key/value + list store behind a
    connection (RedisConn and the server are not part of [worker.go]).  One
    key space; a key holds a string, an integer counter or a list. *)
Inductive rvalue : Type :=
| RString (v : bytes)
| RCounter (n : Z)
| RList (l : list bytes).

(** A command as [conn.Send(commandName, args...)] receives it. *)
Record command := Cmd {
  commandName : string;
  commandArgs : list string
}.

(** Modelled from the spec: what the store does with the four commands the
    worker issues.  A command on a key of the wrong type, and any other
    command, is answered with an error and changes nothing. *)
Definition exec (st : gmap string rvalue) (c : command) : gmap string rvalue :=
  let name := commandName c in
  match commandArgs c with
  | [k; v] =>
      if String.eqb name "SET" then <[k := RString v]> st
      else if String.eqb name "RPUSH" then
        match st !! k with
        | None => <[k := RList [v]]> st
        | Some (RList l) => <[k := RList (l ++ [v])]> st
        | Some _ => st
        end
      else st
  | [k] =>
      if String.eqb name "DEL" then delete k st
      else if String.eqb name "INCR" then
        match st !! k with
        | None => <[k := RCounter 1]> st
        | Some (RCounter n) => <[k := RCounter (n + 1)]> st
        | Some _ => st
        end
      else st
  | _ => st
  end.

Definition exec_all (st : gmap string rvalue) (cs : list command) : gmap string rvalue :=
  fold_left exec cs st.

(** Modelled from the spec: a store connection, "supporting buffered command
    pipelining and an explicit flush".  [pending] is the output buffer,
    [server] the store as the server holds it, and [wire] the batches written
    so far, one per flush. *)
Record RedisConn := {
  pending : list command;
  server : gmap string rvalue;
  wire : list (list command)
}.

(** Modelled from the spec: [conn.Send], which buffers a command. *)
Definition Send (conn : RedisConn) (commandName : string) (args : list string) : RedisConn :=
  {| pending := pending conn ++ [Cmd commandName args];
     server := server conn;
     wire := wire conn |}.

(** Modelled from the spec: [conn.Flush], which writes the buffer as one
    batch; the server executes it in order. *)
Definition Flush (conn : RedisConn) : RedisConn * error :=
  ({| pending := [];
      server := exec_all (server conn) (pending conn);
      wire := wire conn ++ [pending conn] |}, None).

(** The value of a counter: an absent key counts as zero. *)
Definition counter (st : gmap string rvalue) (k : string) : Z :=
  match st !! k with
  | Some (RCounter n) => n
  | _ => 0
  end.

(** The key is free or holds a counter, so that [INCR] applies to it. *)
Definition counter_key (st : gmap string rvalue) (k : string) : Prop :=
  st !! k = None ∨ ∃ n, st !! k = Some (RCounter n).

(** The elements of a list key: an absent key is the empty list. *)
Definition list_at (st : gmap string rvalue) (k : string) : list bytes :=
  match st !! k with
  | Some (RList l) => l
  | _ => []
  end.

(** ** The data of the package *)

(** Two types [worker.go] uses and other files of the package define: a job
    argument ([interface{}]) and [process], which [worker] embeds. *)
Class Foreign := {
  value : Type;
  process : Type
}.

Section Data.

Context `{Foreign}.

(** [time.Time], as a number of ticks. *)
Definition Time := Z.

(** [Payload] and [Job], with the fields [worker.go] reads. *)
Record Payload := {
  Class : string;
  Args : list value
}.

Record Job := {
  job_Queue : string;
  job_Payload : Payload
}.

(** [type worker struct { process }] *)
Record worker := {
  worker_process : process
}.

(** The Work Record [start] builds. *)
Record work := {
  work_Queue : string;
  RunAt : Time;
  work_Payload : Payload
}.

(** The Failure Record [fail] builds. *)
Record failure := {
  FailedAt : Time;
  failure_Payload : Payload;
  Exception : string;
  failure_Error : string;
  failure_Backtrace : list string;
  Worker : worker;
  failure_Queue : string
}.

(** How a call of a work function ends: it returns an error that can be
    read, or it panics with a value that [recover()] returns, [stack] being
    what [debug.Stack()] then reports; or it returns an error that cannot be
    read, or it panics and [recover()] returns nil ([panic(nil)] before
    Go 1.21, or with [GODEBUG=panicnil=1]). *)
Inductive outcome : Type :=
| Return (err : error)
| Panic (r : panic_value) (stack : string)
| ReturnBad (bad : unreadable)
| PanicNil (stack : string).

(** [type workerFunc func(string, ...interface{}) error] *)
Definition workerFunc := string → list value → outcome.

(** *** The world around the worker *)

Inductive level : Type := Debug | Critical.

Inductive logarg : Type :=
| LStr (s : string)
| LTime (t : Time)
| LArgs (args : list value).

(** What happened, in order: the log lines, and the marks kept for the
    proofs: a work function was called, [finish] was entered, with an error
    that can be read or with one that cannot. *)
Inductive event : Type :=
| Logged (lvl : level) (format : string) (args : list logarg)
| Invoked (queue : string) (args : list value)
| Finishing (job : Job) (err : error)
| FinishingBad (job : Job) (bad : unreadable).

(** [redis] is the pooled connection, [pool] the results of the coming calls
    of [GetConn] ([Some err]: the call fails with [err]; an exhausted list:
    the connection is available), [monitor] the counter of the wait group. *)
Record World := {
  redis : RedisConn;
  pool : list error;
  clock : Time;
  trace : list event;
  monitor : Z
}.

Definition M (A : Type) : Type := World → A * World.

Definition ret {A : Type} (x : A) : M A := λ ω, (x, ω).

Definition bind {A B : Type} (m : M A) (k : A → M B) : M B :=
  λ ω, let (x, ω') := m ω in k x ω'.

Definition emit (e : event) : M unit :=
  λ ω, (tt, {| redis := redis ω; pool := pool ω; clock := clock ω;
               trace := trace ω ++ [e]; monitor := monitor ω |}).

Definition logger_Debugf (format : string) (args : list logarg) : M unit :=
  emit (Logged Debug format args).

Definition logger_Criticalf (format : string) (args : list logarg) : M unit :=
  emit (Logged Critical format args).

Definition logger_Critical (msg : string) : M unit :=
  emit (Logged Critical msg []).

(** [time.Now()]: reads the clock, which then moves on. *)
Definition time_Now : M Time :=
  λ ω, (clock ω, {| redis := redis ω; pool := pool ω; clock := clock ω + 1;
                    trace := trace ω; monitor := monitor ω |}).

(** Modelled from the spec: [GetConn()], the [acquire] of the connection
    pool, which lends the connection or fails. *)
Definition GetConn : M (err_value + RedisConn) :=
  λ ω, let res := match pool ω with
                  | Some err :: _ => inl err
                  | _ => inr (redis ω)
                  end in
       (res, {| redis := redis ω; pool := tail (pool ω); clock := clock ω;
                trace := trace ω; monitor := monitor ω |}).

(** Modelled from the spec: [PutConn(conn)], the [release] of the connection
    pool. *)
Definition PutConn (conn : RedisConn) : M unit :=
  λ ω, (tt, {| redis := conn; pool := pool ω; clock := clock ω;
               trace := trace ω; monitor := monitor ω |}).

(** [monitor.Add(n)]; [monitor.Done()] is [monitor.Add(-1)]. *)
Definition monitor_Add (n : Z) : M unit :=
  λ ω, (tt, {| redis := redis ω; pool := pool ω; clock := clock ω;
               trace := trace ω; monitor := monitor ω + n |}).

End Data.

Notation "x <- m ;; k" := (bind m (λ x, k))
  (at level 100, m at next level, right associativity, only parsing).
Notation "m ;;; k" := (bind m (λ _, k))
  (at level 100, right associativity, only parsing).

(** What [worker.go] calls and other files of the package define. *)
Class Package `{Foreign} := {
  (** [workerSettings.Namespace], the prefix of every key *)
  Namespace : string;
  (** the [%v] rendering of a list of job arguments *)
  fmt_v : list value → string;
  (** [func (p *process) String() string] *)
  process_String : process → string;
  (** [json.Marshal] on the two records: the buffer, or the encoder's error *)
  json_Marshal_work : work → err_value + bytes;
  json_Marshal_failure : failure → err_value + bytes;
  (** the methods of [process] that take the connection: [open], [close] and
      [fail], the "mark as no-longer-busy" step *)
  process_open : process → RedisConn → RedisConn * error;
  process_close : process → RedisConn → RedisConn * error;
  process_fail : process → RedisConn → RedisConn * error;
  (** the registry [workers] *)
  workers : gmap string workerFunc
}.

(** ** The worker *)

Section Worker.

Context `{Package}.

(** [w.String()]: the method of the embedded [process], promoted to
    [worker]. *)
Definition worker_String (w : worker) : string :=
  process_String (worker_process w).

(** The verb [%s] (and [%v]) applied to a [*worker]: [fmt] finds that the
    operand implements [Stringer] and prints [w.String()]. *)
Definition fmt_s_worker (w : worker) : string := worker_String w.

(** *** The status reporter *)

(** [func (w *worker) start(conn *RedisConn, job *Job) error] *)
Definition worker_start (w : worker) (conn : RedisConn) (job : Job) : M (RedisConn * error) :=
  now <- time_Now ;;
  let work := {| work_Queue := job_Queue job;
                 RunAt := now;
                 work_Payload := job_Payload job |} in
  match json_Marshal_work work with
  | inl err => ret (conn, Some err)
  | inr buffer =>
      let conn := Send conn "SET" [Namespace +:+ "worker:" +:+ fmt_s_worker w; buffer] in
      logger_Debugf "Processing %s since %s [%v]"
        [LStr (work_Queue work); LTime (RunAt work); LStr (Class (work_Payload work))] ;;;
      ret (Flush conn)
  end.

(** The record [fail] hands to [json.Marshal]. *)
Definition failure_of (w : worker) (job : Job) (err : err_value) (now : Time) : failure :=
  let backtrace := match err with
                   | WorkerErrorPtr typedError => Backtrace typedError
                   | _ => []
                   end in
  {| FailedAt := now;
     failure_Payload := job_Payload job;
     Exception := "Error";
     failure_Error := error_Error err;
     failure_Backtrace := backtrace;
     Worker := w;
     failure_Queue := job_Queue job |}.

(** [func (w *worker) fail(conn *RedisConn, job *Job, err error) error] on a
    non-nil [err] that can be read; [worker_fail_any] below is [fail] on
    whatever [err] holds. *)
Definition worker_fail (w : worker) (conn : RedisConn) (job : Job) (err : err_value) : M (RedisConn * error) :=
  now <- time_Now ;;
  let failure := failure_of w job err now in
  match json_Marshal_failure failure with
  | inl err => ret (conn, Some err)
  | inr buffer =>
      let conn := Send conn "RPUSH" [Namespace +:+ "failed"; buffer] in
      ret (process_fail (worker_process w) conn)
  end.

(** [func (w *worker) succeed(conn *RedisConn, job *Job) error] *)
Definition worker_succeed (w : worker) (conn : RedisConn) (job : Job) : RedisConn * error :=
  let conn := Send conn "INCR" [Namespace +:+ "stat:processed"] in
  let conn := Send conn "INCR" [Namespace +:+ "stat:processed:" +:+ fmt_s_worker w] in
  (conn, None).

(** [func (w *worker) finish(conn *RedisConn, job *Job, err error) error] on
    an [err] that is nil or can be read, as the loop calls it for a class
    without a work function; the results of [fail] and [succeed] are dropped.
    [worker_finish_any] below is [finish] on whatever [err] holds. *)
Definition worker_finish (w : worker) (conn : RedisConn) (job : Job) (err : error) : M (RedisConn * error) :=
  emit (Finishing job err) ;;;
  conn <- match err with
          | Some e => r <- worker_fail w conn job e ;; ret (fst r)
          | None => ret (fst (worker_succeed w conn job))
          end ;;
  let conn := Send conn "DEL"
                [Namespace +:+ "worker:" +:+ process_String (worker_process w)] in
  ret (Flush conn).

(** [fail] on whatever [err] holds: what it returns, or the panic it ends
    with.  On a nil [*WorkerError] the type switch takes its first case and
    [typedError.Backtrace] panics before anything else is done; on another
    error that cannot be read, and on a nil interface, [time.Now()] is called
    for the first field of the record and [err.Error()] then panics.  In
    each case nothing has been sent on the connection. *)
Definition worker_fail_any (w : worker) (conn : RedisConn) (job : Job) (err : held) : M (RedisConn * error + panic_value) :=
  match err with
  | Bad NilPointer => ret (inr nil_dereference)
  | Bad (Unprintable p) => now <- time_Now ;; ret (inr p)
  | Good None => now <- time_Now ;; ret (inr nil_dereference)
  | Good (Some e) => r <- worker_fail w conn job e ;; ret (inl r)
  end.

(** [finish] on whatever [err] holds: what it returns, or the panic of [fail]
    that leaves it, in which case neither the delete nor the flush is
    reached. *)
Definition worker_finish_any (w : worker) (conn : RedisConn) (job : Job) (err : held) : M (RedisConn * error + panic_value) :=
  emit (match err with
        | Good err => Finishing job err
        | Bad bad => FinishingBad job bad
        end) ;;;
  r <- match err with
       | Good None => ret (inl (fst (worker_succeed w conn job)))
       | _ =>
           r <- worker_fail_any w conn job err ;;
           ret (match r with
                | inl r => inl (fst r)
                | inr p => inr p
                end)
       end ;;
  match r with
  | inr p => ret (inr p)
  | inl conn =>
      let conn := Send conn "DEL"
                    [Namespace +:+ "worker:" +:+ process_String (worker_process w)] in
      ret (inl (Flush conn))
  end.

(** *** The execution engine *)

(** A call of a work function, marked in the trace. *)
Definition invoke (workerFunc : workerFunc) (queue : string) (args : list value) : M outcome :=
  emit (Invoked queue args) ;;;
  ret (workerFunc queue args).

(** The body of [run], up to its [return] or to the panic of the work
    function: the value the variable [err] then has, and the panic in flight.
    [conn, err := GetConn()] assigns the [err] declared at the top of [run],
    since [conn] is the only new variable on its left. *)
Definition run_body (w : worker) (job : Job) (workerFunc : workerFunc) : M (held * option (option panic_value * string)) :=
  r <- GetConn ;;
  match r with
  | inl err =>
      logger_Criticalf "Error on getting connection in worker on start %v: %v"
        [LStr (fmt_s_worker w); LStr (error_Error err)] ;;;
      ret (Good (Some err), None)
  | inr conn =>
      r <- worker_start w conn job ;;
      PutConn (fst r) ;;;
      o <- invoke workerFunc (job_Queue job) (Args (job_Payload job)) ;;
      match o with
      | Return err => ret (Good err, None)
      | ReturnBad bad => ret (Bad bad, None)
      | Panic v stack => ret (Good None, Some (Some v, stack))
      | PanicNil stack => ret (Good None, Some (None, stack))
      end
  end.

(** The deferred function [run] registers last, which runs first.  The
    panic in flight is given with the value [recover()] returns for it;
    [recover()] ends it, and [err] becomes a Worker-Error when that value is
    not nil.  The second result is the panic still in flight afterwards. *)
Definition run_recover (err : held) (panicking : option (option panic_value * string)) : held * option panic_value :=
  match panicking with
  | Some (Some r, stack) =>
      let stackTrace := strings_Split stack LF in
      (Good (Some (WorkerErrorPtr (NewWorkerError (fmt_Sprint r) stackTrace))), None)
  | Some (None, _) => (err, None)
  | None => (err, None)
  end.

(** The deferred function [run] registers first, which runs last; the result
    is the panic that leaves it, after which the connection is not handed
    back. *)
Definition run_finish (w : worker) (job : Job) (err : held) : M (option panic_value) :=
  r <- GetConn ;;
  match r with
  | inl errCon =>
      logger_Criticalf "Error on getting connection in worker on finish %v: %v"
        [LStr (fmt_s_worker w); LStr (error_Error errCon)] ;;;
      ret None
  | inr conn =>
      r <- worker_finish_any w conn job err ;;
      match r with
      | inl r => PutConn (fst r) ;;; ret None
      | inr p => ret (Some p)
      end
  end.

(** [func (w *worker) run(job *Job, workerFunc workerFunc)]; the result is the
    panic that leaves [run], if any: one raised in the deferred finish, which
    runs after the deferred [recover()]. *)
Definition worker_run (w : worker) (job : Job) (workerFunc : workerFunc) : M (option panic_value) :=
  b <- run_body w job workerFunc ;;
  let r := run_recover (fst b) (snd b) in
  p <- run_finish w job (fst r) ;;
  ret (match p with
       | Some p => Some p
       | None => snd r
       end).

(** *** The worker loop *)

(** How the loop over the intake channel ends: the channel is closed, the
    loop returns with jobs still to come, or a panic ends the goroutine. *)
Inductive loop_exit : Type :=
| ChannelClosed
| Returned (unreceived : list Job)
| Crashed (unreceived : list Job).

(** [for job := range jobs { ... }], [jobs] being what the channel delivers
    before it is closed. *)
Fixpoint drain (w : worker) (jobs : list Job) : M loop_exit :=
  match jobs with
  | [] => ret ChannelClosed
  | job :: jobs' =>
      match workers !! Class (job_Payload job) with
      | Some workerFunc =>
          p <- worker_run w job workerFunc ;;
          match p with
          | Some _ => ret (Crashed jobs')
          | None =>
              logger_Debugf "done: (Job{%s} | %s | %v)"
                [LStr (job_Queue job); LStr (Class (job_Payload job));
                 LArgs (Args (job_Payload job))] ;;;
              drain w jobs'
          end
      | None =>
          let errorLog := "No worker for " +:+ Class (job_Payload job) +:+
                          " in queue " +:+ job_Queue job +:+
                          " with args " +:+ fmt_v (Args (job_Payload job)) in
          logger_Critical errorLog ;;;
          r <- GetConn ;;
          match r with
          | inl err =>
              logger_Criticalf "Error on getting connection in worker %v: %v"
                [LStr (fmt_s_worker w); LStr (error_Error err)] ;;;
              ret (Returned jobs')
          | inr conn =>
              r <- worker_finish w conn job (Some (errors_New errorLog)) ;;
              PutConn (fst r) ;;;
              drain w jobs'
          end
      end
  end.

(** How [work] ends: before the goroutine is started, or with the loop. *)
Inductive work_exit : Type :=
| NotStarted
| Drained (x : loop_exit).

(** [func (w *worker) work(jobs <-chan *Job, monitor *sync.WaitGroup)], the
    goroutine run to its end. *)
Definition worker_work (w : worker) (jobs : list Job) : M work_exit :=
  r <- GetConn ;;
  match r with
  | inl err =>
      logger_Criticalf "Error on getting connection in worker %v: %v"
        [LStr (fmt_s_worker w); LStr (error_Error err)] ;;;
      ret NotStarted
  | inr conn =>
      PutConn (fst (process_open (worker_process w) conn)) ;;;
      monitor_Add 1 ;;;
      x <- drain w jobs ;;
      r <- GetConn ;;
      match r with
      | inl err =>
          logger_Criticalf "Error on getting connection in worker %v: %v"
            [LStr (fmt_s_worker w); LStr (error_Error err)]
      | inr conn =>
          PutConn (fst (process_close (worker_process w) conn))
      end ;;;
      monitor_Add (-1) ;;;
      ret (Drained x)
  end.

(** *** Notions the properties are stated with *)

(** [<ns>worker:<identity>], the identity being the worker's string
    rendering. *)
Definition heartbeat_key (w : worker) : string :=
  Namespace +:+ "worker:" +:+ worker_String w.

(** [<ns>failed] *)
Definition failed_key : string := Namespace +:+ "failed".

(** [<ns>stat:processed] and [<ns>stat:processed:<identity>] *)
Definition processed_key : string := Namespace +:+ "stat:processed".

Definition processed_key_of (w : worker) : string :=
  Namespace +:+ "stat:processed:" +:+ worker_String w.

(** The commands written on a connection so far, in order. *)
Definition written (conn : RedisConn) : list command := concat (wire conn).

(** [sub] occurs in [s]. *)
Definition occurs_in (sub s : string) : Prop :=
  ∃ before after, s = before +:+ sub +:+ after.

(** The [k]-th coming call of [GetConn] succeeds. *)
Definition acquires (k : nat) (ω : World) : bool :=
  match pool ω !! k with
  | Some (Some _) => false
  | _ => true
  end.

(** The world when the body of [run] has called [start] and handed the
    connection back, and is about to call the work function. *)
Definition started (w : worker) (job : Job) (ω : World) : World :=
  let s := worker_start w (redis ω) job (snd (GetConn ω)) in
  snd (PutConn (fst (fst s)) (snd s)).

(** The error text of the loop for a job without a work function. *)
Definition no_worker_message (job : Job) : string :=
  "No worker for " +:+ Class (job_Payload job) +:+
  " in queue " +:+ job_Queue job +:+
  " with args " +:+ fmt_v (Args (job_Payload job)).

(** The world in which the loop receives the next job, when it goes on after
    [job]; [None] when it returns or a panic ends it. *)
Definition next (w : worker) (job : Job) (ω : World) : option World :=
  match workers !! Class (job_Payload job) with
  | Some f =>
      match fst (worker_run w job f ω) with
      | Some _ => None
      | None =>
          Some (snd (logger_Debugf "done: (Job{%s} | %s | %v)"
                       [LStr (job_Queue job); LStr (Class (job_Payload job));
                        LArgs (Args (job_Payload job))] (snd (worker_run w job f ω))))
      end
  | None =>
      let ω1 := snd (logger_Critical (no_worker_message job) ω) in
      match head (pool ω) with
      | Some (Some err) => None
      | _ =>
          let r := worker_finish w (redis ω) job
                     (Some (errors_New (no_worker_message job))) (snd (GetConn ω1)) in
          Some (snd (PutConn (fst (fst r)) (snd r)))
      end
  end.

(** The world the loop leaves when it returns at [job]. *)
Definition stopped (w : worker) (job : Job) (ω : World) : World :=
  match head (pool ω) with
  | Some (Some err) =>
      snd (logger_Criticalf "Error on getting connection in worker %v: %v"
             [LStr (fmt_s_worker w); LStr (error_Error err)]
             (snd (GetConn (snd (logger_Critical (no_worker_message job) ω)))))
  | _ => ω
  end.

(** *** The rest of the file, and notions for the properties of the whole *)

(** [func newWorker(id string, queues []string)], which returns the new
    worker or an error; [newProcess] belongs to another file of the
    package. *)
Definition newWorker (newProcess : string → list string → err_value + process)
    (id : string) (queues : list string) : err_value + worker :=
  match newProcess id queues with
  | inl err => inl err
  | inr process => inr {| worker_process := process |}
  end.

(** [func (w *worker) MarshalJSON()], which returns the bytes or an error;
    [json_Marshal_string] is [json.Marshal] on a string. *)
Definition worker_MarshalJSON (json_Marshal_string : string → err_value + bytes)
    (w : worker) : err_value + bytes :=
  json_Marshal_string (worker_String w).

(** What the work function leaves in [err] and in flight. *)
Definition body_exit (o : outcome) : held * option (option panic_value * string) :=
  match o with
  | Return err => (Good err, None)
  | ReturnBad bad => (Bad bad, None)
  | Panic v stack => (Good None, Some (Some v, stack))
  | PanicNil stack => (Good None, Some (None, stack))
  end.

(** The panic [fail] ends with on an error it cannot read. *)
Definition panic_of (bad : unreadable) : panic_value :=
  match bad with
  | NilPointer => nil_dereference
  | Unprintable p => p
  end.

(** The calls of [finish] a trace records, in order: the job and the error
    [finish] was given. *)
Fixpoint finishings (tr : list event) : list (Job * held) :=
  match tr with
  | [] => []
  | Finishing job err :: tr' => (job, Good err) :: finishings tr'
  | FinishingBad job bad :: tr' => (job, Bad bad) :: finishings tr'
  | _ :: tr' => finishings tr'
  end.

(** The calls of work functions a trace records, in order. *)
Fixpoint invocations (tr : list event) : list (string * list value) :=
  match tr with
  | [] => []
  | Invoked queue args :: tr' => (queue, args) :: invocations tr'
  | _ :: tr' => invocations tr'
  end.

(** The error [run] ends with for a work function: what the function
    returns, the Worker-Error of its panic, or nil when [recover()] returns
    nil for its panic. *)
Definition verdict_of (f : workerFunc) (job : Job) : held :=
  match f (job_Queue job) (Args (job_Payload job)) with
  | Return err => Good err
  | ReturnBad bad => Bad bad
  | Panic r stack =>
      Good (Some (WorkerErrorPtr (NewWorkerError (fmt_Sprint r) (strings_Split stack LF))))
  | PanicNil _ => Good None
  end.

(** The error a job ends with: the one of its work function, or the error of
    a class without a work function. *)
Definition verdict (job : Job) : held :=
  match workers !! Class (job_Payload job) with
  | Some f => verdict_of f job
  | None => Good (Some (errors_New (no_worker_message job)))
  end.

(** On the job, the work function returns nil or an error that [fail] can
    read, or panics. *)
Definition readable_of (f : workerFunc) (job : Job) : Prop :=
  ∀ bad, f (job_Queue job) (Args (job_Payload job)) ≠ ReturnBad bad.

(** The work function of the job, if its class has one, does so. *)
Definition readable (job : Job) : Prop :=
  match workers !! Class (job_Payload job) with
  | Some f => readable_of f job
  | None => True
  end.


(** The call of a work function a job gives rise to, if its class has one. *)
Definition call_of (job : Job) : list (string * list value) :=
  match workers !! Class (job_Payload job) with
  | Some _ => [(job_Queue job, Args (job_Payload job))]
  | None => []
  end.

(** The store once the server has executed what the connection still
    buffers. *)
Definition settled (conn : RedisConn) : gmap string rvalue :=
  exec_all (server conn) (pending conn).

(** The key is free or holds a list, so that [RPUSH] applies to it. *)
Definition list_key (st : gmap string rvalue) (k : string) : Prop :=
  st !! k = None ∨ ∃ l, st !! k = Some (RList l).

(** [c] occurs in [s]. *)
Fixpoint has_char (c : ascii) (s : string) : bool :=
  match s with
  | EmptyString => false
  | String c' s' => if Ascii.eqb c' c then true else has_char c s'
  end.

(** Every coming call of [GetConn] succeeds. *)
Definition store_up (ω : World) : Prop := Forall (λ r, r = None) (pool ω).

(** The world the deferred function of the goroutine of [work] leaves: the
    worker is closed when the connection is acquired, and the wait group is
    told in either case. *)
Definition closed (w : worker) (ω : World) : World :=
  match head (pool ω) with
  | Some (Some err) =>
      {| redis := redis ω; pool := tail (pool ω); clock := clock ω;
         trace := trace ω ++
           [Logged Critical "Error on getting connection in worker %v: %v"
              [LStr (fmt_s_worker w); LStr (error_Error err)]];
         monitor := monitor ω + -1 |}
  | _ =>
      {| redis := fst (process_close (worker_process w) (redis ω));
         pool := tail (pool ω); clock := clock ω; trace := trace ω;
         monitor := monitor ω + -1 |}
  end.

End Worker.

(** ** A concrete package *)

Module Demo.

#[export] Instance foreign : Foreign := {| value := string; process := string |}.

(** The registry: ["Echo"] succeeds, ["Fail"] returns an error, ["Boom"]
    panics, ["Nil"] returns a nil [*WorkerError] as its [error], and
    ["Silent"] panics in a way that [recover()] reports as nil. *)
Definition echo : workerFunc := λ _ _, Return None.

Definition failing : workerFunc := λ _ _, Return (Some (PlainError "no luck")).

Definition boom : workerFunc :=
  λ _ _, Panic (PanicString "boom") ("goroutine 1" +:+ String LF "main.go:7").

Definition typed_nil : workerFunc := λ _ _, ReturnBad NilPointer.

Definition silent : workerFunc := λ _ _, PanicNil "goroutine 1".

Definition registry : gmap string workerFunc :=
  <["Echo" := echo]> (<["Fail" := failing]> (<["Boom" := boom]>
    (<["Nil" := typed_nil]> (<["Silent" := silent]> ∅)))).

(** The encoder refuses a payload of class ["NaN"]. *)
Definition marshal_work (r : work) : err_value + bytes :=
  if String.eqb (Class (work_Payload r)) "NaN" then inl (PlainError "json: unsupported value")
  else inr ("work:" +:+ work_Queue r +:+ ":" +:+ Class (work_Payload r)).

Definition marshal_failure (r : failure) : err_value + bytes :=
  if String.eqb (Class (failure_Payload r)) "NaN" then inl (PlainError "json: unsupported value")
  else inr ("failure:" +:+ failure_Error r).

Definition no_op (p : process) (conn : RedisConn) : RedisConn * error := (conn, None).

#[export] Instance package : Package := {|
  Namespace := "resque:";
  fmt_v := λ args, "[" +:+ String.concat " " args +:+ "]";
  process_String := λ p, p;
  json_Marshal_work := marshal_work;
  json_Marshal_failure := marshal_failure;
  process_open := no_op;
  process_close := no_op;
  process_fail := no_op;
  workers := registry
|}.

Definition w1 : worker := {| worker_process := "w1" |}.

Definition job (class : string) : Job :=
  {| job_Queue := "default"; job_Payload := {| Class := class; Args := ["hi"] |} |}.

Definition fresh : RedisConn := {| pending := []; server := ∅; wire := [] |}.

(** A world whose coming calls of [GetConn] end as [results] says. *)
Definition world (results : list error) : World :=
  {| redis := fresh; pool := results; clock := 0; trace := []; monitor := 0 |}.

Definition down : error := Some (PlainError "dial tcp: connection refused").

End Demo.

(** ** Properties *)

Section Properties.

Context `{Package}.

(** *** Keys are apart *)

Lemma heartbeat_not_processed w : heartbeat_key w ≠ processed_key.
Proof.
  unfold heartbeat_key, processed_key. intros E.
  apply String.app_inj in E. simpl in E. discriminate.
Qed.

Lemma heartbeat_not_processed_of w w' : heartbeat_key w ≠ processed_key_of w'.
Proof.
  unfold heartbeat_key, processed_key_of. intros E.
  apply String.app_inj in E. simpl in E. discriminate.
Qed.

Lemma heartbeat_not_failed w : heartbeat_key w ≠ failed_key.
Proof.
  unfold heartbeat_key, failed_key. intros E.
  apply String.app_inj in E. simpl in E. discriminate.
Qed.

Lemma processed_not_processed_of w : processed_key ≠ processed_key_of w.
Proof.
  unfold processed_key, processed_key_of. intros E.
  apply String.app_inj in E. simpl in E. discriminate.
Qed.

(** *** The store *)

Lemma exec_all_app st cs cs' : exec_all st (cs ++ cs') = exec_all (exec_all st cs) cs'.
Proof. unfold exec_all. apply fold_left_app. Qed.

Lemma exec_DEL st k : exec st (Cmd "DEL" [k]) = delete k st.
Proof. reflexivity. Qed.

Lemma exec_SET st k v : exec st (Cmd "SET" [k; v]) = <[k := RString v]> st.
Proof. reflexivity. Qed.

Lemma counter_INCR st k :
  counter_key st k → counter (exec st (Cmd "INCR" [k])) k = counter st k + 1.
Proof.
  intros [E | [n E]]; unfold counter; cbn; rewrite E.
  - by rewrite lookup_insert_eq.
  - by rewrite lookup_insert_eq.
Qed.

Lemma lookup_INCR_other st k k' : k ≠ k' → exec st (Cmd "INCR" [k]) !! k' = st !! k'.
Proof.
  intros Hne. cbn. destruct (st !! k) as [[]|]; try done; by rewrite lookup_insert_ne.
Qed.

Lemma counter_ext st st' k : st !! k = st' !! k → counter st k = counter st' k.
Proof. unfold counter. by intros ->. Qed.

Lemma counter_key_ext st st' k : st !! k = st' !! k → counter_key st k → counter_key st' k.
Proof. unfold counter_key. by intros ->. Qed.

Lemma last_written (conn : RedisConn) (batch : list command) (c : command) :
  last (concat (wire conn ++ [batch ++ [c]])) = Some c.
Proof.
  rewrite concat_app. simpl. rewrite app_nil_r, app_assoc. apply last_snoc.
Qed.

(** *** The status reporter *)

Ltac step_m := unfold bind, ret, emit, time_Now, logger_Debugf; simpl.

Lemma fail_marshalled w conn job err ω buffer :
  json_Marshal_failure (failure_of w job err (clock ω)) = inr buffer →
  fst (worker_fail w conn job err ω)
  = process_fail (worker_process w) (Send conn "RPUSH" [failed_key; buffer]).
Proof. intros E. unfold worker_fail. step_m. by rewrite E. Qed.

Lemma fail_not_marshalled w conn job err ω e :
  json_Marshal_failure (failure_of w job err (clock ω)) = inl e →
  fst (worker_fail w conn job err ω) = (conn, Some e).
Proof. intros E. unfold worker_fail. step_m. by rewrite E. Qed.

(** [fail] leaves the pool, the trace and the wait group alone, and reads the
    clock once. *)
Lemma fail_world w conn job err ω :
  snd (worker_fail w conn job err ω)
  = {| redis := redis ω; pool := pool ω; clock := clock ω + 1;
       trace := trace ω; monitor := monitor ω |}.
Proof.
  unfold worker_fail. step_m.
  by destruct (json_Marshal_failure _).
Qed.

Lemma finish_unfold w conn job err ω :
  let ω0 := snd (emit (Finishing job err) ω) in
  let reported :=
    match err with
    | Some e => let r := worker_fail w conn job e ω0 in (fst (fst r), snd r)
    | None => (fst (worker_succeed w conn job), ω0)
    end in
  worker_finish w conn job err ω
  = (Flush (Send (fst reported) "DEL" [heartbeat_key w]), snd reported).
Proof.
  unfold worker_finish. destruct err as [e|]; step_m.
  - by destruct (worker_fail w conn job e _) as [[c r] ω1].
  - done.
Qed.

(** The connection [finish] leaves after a failure that was serialized. *)
Lemma finish_failure w conn job err ω buffer :
  json_Marshal_failure (failure_of w job err (clock ω)) = inr buffer →
  fst (fst (worker_finish w conn job (Some err) ω))
  = fst (Flush (Send
      (fst (process_fail (worker_process w) (Send conn "RPUSH" [failed_key; buffer])))
      "DEL" [heartbeat_key w])).
Proof.
  intros E. rewrite finish_unfold.
  change (clock ω) with (clock (snd (emit (Finishing job (Some err)) ω))) in E.
  cbn [fst snd]. by rewrite (fail_marshalled _ _ _ _ _ _ E).
Qed.

(** [finish] adds its mark to the trace and nothing else. *)
Lemma finish_trace w conn job err ω :
  trace (snd (worker_finish w conn job err ω)) = trace ω ++ [Finishing job err].
Proof.
  rewrite finish_unfold. destruct err as [e|]; simpl; [|done].
  by rewrite fail_world.
Qed.

Lemma finish_pool w conn job err ω :
  pool (snd (worker_finish w conn job err ω)) = pool ω.
Proof.
  rewrite finish_unfold. destruct err as [e|]; simpl; [|done].
  by rewrite fail_world.
Qed.

(** A flush right after one more command is buffered. *)
Lemma flush_after_send (c : RedisConn) (name : string) (args : list string) :
  let c' := fst (Flush (Send c name args)) in
  pending c' = []
  ∧ wire c' = wire c ++ [pending c ++ [Cmd name args]]
  ∧ server c' = exec (exec_all (server c) (pending c)) (Cmd name args).
Proof. simpl. repeat split. by rewrite exec_all_app. Qed.



Lemma start_unfold w conn job ω :
  fst (worker_start w conn job ω)
  = match json_Marshal_work {| work_Queue := job_Queue job; RunAt := clock ω;
                               work_Payload := job_Payload job |} with
    | inr buffer => Flush (Send conn "SET" [heartbeat_key w; buffer])
    | inl e => (conn, Some e)
    end.
Proof.
  unfold worker_start. step_m. by destruct (json_Marshal_work _).
Qed.

(** C8, as the code has it: [start] buffers the set of the serialized Work
    Record under the heartbeat key and flushes the connection itself, so the
    record is on the server when [start] returns; when the record does not
    serialize, [start] returns the error and leaves the connection as it
    was. *)
Theorem start_sets_heartbeat_and_flushes (w : worker) (conn : RedisConn) (job : Job) (ω : World) :
  let conn' := fst (fst (worker_start w conn job ω)) in
  match json_Marshal_work {| work_Queue := job_Queue job; RunAt := clock ω;
                             work_Payload := job_Payload job |} with
  | inr buffer =>
      fst (worker_start w conn job ω)
      = Flush (Send conn "SET" [heartbeat_key w; buffer])
      ∧ pending conn' = []
      ∧ wire conn' = wire conn ++ [pending conn ++ [Cmd "SET" [heartbeat_key w; buffer]]]
      ∧ server conn' !! heartbeat_key w = Some (RString buffer)
  | inl e => fst (worker_start w conn job ω) = (conn, Some e)
  end.
Proof.
  intros conn'. subst conn'. rewrite start_unfold.
  destruct (json_Marshal_work _) as [e|buffer]; [done|].
  destruct (flush_after_send conn "SET" [heartbeat_key w; buffer]) as (P & W & S).
  repeat split; try done.
  rewrite S, exec_SET. apply lookup_insert_eq.
Qed.

(** C9: the last command [start] writes is the set of [<ns>worker:<identity>]
    and the last command [finish] writes is the delete of the same key, the
    identity being the worker's string rendering in both; so [finish], run on
    the connection [start] leaves, removes the key [start] set. *)
Theorem heartbeat_key_set_is_key_deleted (w : worker) (conn conn' : RedisConn) (job job' : Job) (err : error) (ω ω' : World) (buffer : bytes) :
  json_Marshal_work {| work_Queue := job_Queue job; RunAt := clock ω;
                       work_Payload := job_Payload job |} = inr buffer →
  let set_conn := fst (fst (worker_start w conn job ω)) in
  last (written set_conn) = Some (Cmd "SET" [heartbeat_key w; buffer])
  ∧ last (written (fst (fst (worker_finish w conn' job' err ω'))))
    = Some (Cmd "DEL" [heartbeat_key w])
  ∧ heartbeat_key w = Namespace +:+ "worker:" +:+ fmt_s_worker w
  ∧ heartbeat_key w = Namespace +:+ "worker:" +:+ process_String (worker_process w)
  ∧ server set_conn !! heartbeat_key w = Some (RString buffer)
  ∧ server (fst (fst (worker_finish w set_conn job err ω'))) !! heartbeat_key w = None.
Proof.
  intros E set_conn.
  assert (S : set_conn = fst (Flush (Send conn "SET" [heartbeat_key w; buffer]))).
  { subst set_conn. by rewrite start_unfold, E. }
  destruct (flush_after_send conn "SET" [heartbeat_key w; buffer]) as (_ & Sw & Ss).
  rewrite <- S in Sw, Ss.
  assert (F : ∀ c j x ω0, ∃ c1,
            fst (fst (worker_finish w c j x ω0)) = fst (Flush (Send c1 "DEL" [heartbeat_key w]))).
  { intros. rewrite finish_unfold. simpl. eauto. }
  destruct (F conn' job' err ω') as [c1 F1].
  destruct (F set_conn job err ω') as [c2 F2].
  destruct (flush_after_send c1 "DEL" [heartbeat_key w]) as (_ & W1 & _).
  destruct (flush_after_send c2 "DEL" [heartbeat_key w]) as (_ & _ & S2).
  repeat split.
  - unfold written. rewrite Sw. apply last_written.
  - unfold written. rewrite F1, W1. apply last_written.
  - rewrite Ss, exec_SET. apply lookup_insert_eq.
  - rewrite F2, S2, exec_DEL. apply lookup_delete_eq.
Qed.

(** C10: when the Failure Record does not serialize, [fail] returns the
    encoder's error with the connection as it was (no append, no "mark as
    no-longer-busy"); [finish] drops that error, buffers the delete of the
    heartbeat key and flushes, so that the key is gone from the server. *)
Theorem finish_deletes_heartbeat_when_marshal_fails (w : worker) (conn : RedisConn) (job : Job) (err : err_value) (ω : World) (e : err_value) :
  json_Marshal_failure (failure_of w job err (clock ω)) = inl e →
  let result := fst (worker_finish w conn job (Some err) ω) in
  fst (worker_fail w conn job err ω) = (conn, Some e)
  ∧ result = Flush (Send conn "DEL" [heartbeat_key w])
  ∧ snd result = None
  ∧ pending (fst result) = []
  ∧ wire (fst result) = wire conn ++ [pending conn ++ [Cmd "DEL" [heartbeat_key w]]]
  ∧ server (fst result) !! heartbeat_key w = None.
Proof.
  intros E result.
  assert (R : result = Flush (Send conn "DEL" [heartbeat_key w])).
  { subst result. rewrite finish_unfold. simpl.
    change (clock ω) with (clock (snd (emit (Finishing job (Some err)) ω))) in E.
    by rewrite (fail_not_marshalled _ _ _ _ _ _ E). }
  split; [by apply fail_not_marshalled|].
  split; [exact R|]. rewrite R. simpl. repeat split.
  rewrite exec_all_app. simpl. apply lookup_delete_eq.
Qed.

(** *** The execution engine *)

Lemma split_from_not_nil sep cur s : split_from sep cur s ≠ [].
Proof.
  revert cur. induction s as [|c s IH]; intros cur; simpl; [done|].
  destruct (Ascii.eqb c sep); [done|apply IH].
Qed.

Lemma GetConn_head (ω : World) :
  fst (GetConn ω)
  = match head (pool ω) with
    | Some (Some e) => inl e
    | _ => inr (redis ω)
    end.
Proof. unfold GetConn. simpl. by destruct (pool ω) as [|[e|] p]. Qed.

Lemma GetConn_world (ω : World) :
  snd (GetConn ω)
  = {| redis := redis ω; pool := tail (pool ω); clock := clock ω;
       trace := trace ω; monitor := monitor ω |}.
Proof. reflexivity. Qed.

Lemma acquires_head (ω : World) :
  acquires 0 ω = true → fst (GetConn ω) = inr (redis ω).
Proof.
  rewrite GetConn_head. unfold acquires.
  destruct (pool ω) as [|[e|] p]; simpl; done.
Qed.

Lemma finish_any_good w conn job (err : error) ω :
  worker_finish_any w conn job (Good err) ω
  = (inl (fst (worker_finish w conn job err ω)), snd (worker_finish w conn job err ω)).
Proof.
  unfold worker_finish_any, worker_finish, worker_fail_any, bind, ret, emit. simpl.
  destruct err as [e|]; simpl; [|done].
  by destruct (worker_fail w conn job e _) as [[c x] ω1].
Qed.

Lemma finish_any_bad w conn job bad ω :
  worker_finish_any w conn job (Bad bad) ω
  = (inr (panic_of bad),
     {| redis := redis ω; pool := pool ω;
        clock := match bad with
                 | NilPointer => clock ω
                 | Unprintable _ => clock ω + 1
                 end;
        trace := trace ω ++ [FinishingBad job bad]; monitor := monitor ω |}).
Proof. by destruct bad. Qed.

Lemma run_unfold w job f ω :
  worker_run w job f ω
  = let b := run_body w job f ω in
    let r := run_recover (fst (fst b)) (snd (fst b)) in
    let d := run_finish w job (fst r) (snd b) in
    (match fst d with
     | Some p => Some p
     | None => snd r
     end, snd d).
Proof.
  unfold worker_run, bind, ret. destruct (run_body w job f ω) as [[e p] ω1].
  simpl. by destruct (run_finish _ _ _ ω1).
Qed.

(** After the deferred [recover()] no panic is in flight. *)
Lemma run_recover_ends_panic err panicking : snd (run_recover err panicking) = None.
Proof. by destruct panicking as [[[r|] stack]|]. Qed.

(** The panic that leaves [run] is the one of its deferred finish. *)
Lemma run_panic w job f ω :
  fst (worker_run w job f ω)
  = fst (run_finish w job
           (fst (run_recover (fst (fst (run_body w job f ω)))
                             (snd (fst (run_body w job f ω)))))
           (snd (run_body w job f ω))).
Proof.
  rewrite run_unfold. cbn zeta. cbn [fst]. rewrite run_recover_ends_panic.
  by destruct (fst (run_finish _ _ _ _)).
Qed.

Lemma run_finish_unfold w job (err : error) ω :
  snd (run_finish w job (Good err) ω)
  = match head (pool ω) with
    | Some (Some errCon) =>
        snd (logger_Criticalf "Error on getting connection in worker on finish %v: %v"
               [LStr (fmt_s_worker w); LStr (error_Error errCon)] (snd (GetConn ω)))
    | _ =>
        let r := worker_finish w (redis ω) job err (snd (GetConn ω)) in
        snd (PutConn (fst (fst r)) (snd r))
    end.
Proof.
  unfold run_finish, bind. pose proof (GetConn_head ω) as E.
  destruct (GetConn ω) as [r ω1]. simpl in *. subst r.
  destruct (head (pool ω)) as [[e|]|]; simpl; try done;
    rewrite finish_any_good; by destruct (worker_finish _ _ _ _ ω1) as [[c x] ω2].
Qed.

(** The deferred finish of [run] returns when [err] can be read. *)
Lemma run_finish_returns w job (err : error) ω :
  fst (run_finish w job (Good err) ω) = None.
Proof.
  unfold run_finish, bind. destruct (GetConn ω) as [[e|c] ω1]; simpl; [done|].
  rewrite finish_any_good. by destruct (worker_finish _ _ _ _ ω1) as [[c' x] ω2].
Qed.

(** The deferred finish of [run] without the connection, whatever [err]
    holds. *)
Lemma run_finish_down w job (err : held) ω e :
  head (pool ω) = Some (Some e) →
  snd (run_finish w job err ω)
  = snd (logger_Criticalf "Error on getting connection in worker on finish %v: %v"
           [LStr (fmt_s_worker w); LStr (error_Error e)] (snd (GetConn ω))).
Proof.
  intros P. unfold run_finish, bind. pose proof (GetConn_head ω) as E.
  destruct (GetConn ω) as [r ω1]. simpl in *. subst r. by rewrite P.
Qed.

(** The deferred finish of [run] when [err] cannot be read: with the
    connection, [fail] panics and the connection is not handed back. *)
Lemma run_finish_bad w job bad ω :
  run_finish w job (Bad bad) ω
  = match head (pool ω) with
    | Some (Some errCon) =>
        (None,
         snd (logger_Criticalf "Error on getting connection in worker on finish %v: %v"
                [LStr (fmt_s_worker w); LStr (error_Error errCon)] (snd (GetConn ω))))
    | _ =>
        (Some (panic_of bad),
         snd (worker_finish_any w (redis ω) job (Bad bad) (snd (GetConn ω))))
    end.
Proof.
  unfold run_finish, bind. pose proof (GetConn_head ω) as E.
  destruct (GetConn ω) as [r ω1]. simpl in *. subst r.
  destruct (head (pool ω)) as [[e|]|]; simpl; try done;
    by rewrite finish_any_bad.
Qed.

Lemma run_body_unfold w job f ω :
  run_body w job f ω
  = match head (pool ω) with
    | Some (Some err) =>
        ((Good (Some err), None),
         snd (logger_Criticalf "Error on getting connection in worker on start %v: %v"
                [LStr (fmt_s_worker w); LStr (error_Error err)] (snd (GetConn ω))))
    | _ =>
        (body_exit (f (job_Queue job) (Args (job_Payload job))),
         snd (emit (Invoked (job_Queue job) (Args (job_Payload job))) (started w job ω)))
    end.
Proof.
  unfold run_body, started, bind. pose proof (GetConn_head ω) as E.
  destruct (GetConn ω) as [r ω1]. simpl in *. subst r.
  destruct (head (pool ω)) as [[e|]|]; simpl; try done;
    destruct (worker_start _ _ _ ω1) as [[c x] ω2]; simpl;
    unfold invoke, bind, ret, emit; simpl;
    by destruct (f _ _).
Qed.

(** [recover()] after the body leaves the error of the work function. *)
Lemma recover_body_exit (f : workerFunc) job :
  fst (run_recover (fst (body_exit (f (job_Queue job) (Args (job_Payload job)))))
                   (snd (body_exit (f (job_Queue job) (Args (job_Payload job))))))
  = verdict_of f job.
Proof. unfold verdict_of. by destruct (f _ _). Qed.

Lemma start_world w conn job ω :
  pool (snd (worker_start w conn job ω)) = pool ω
  ∧ (∀ e, e ∈ trace (snd (worker_start w conn job ω)) → e ∈ trace ω ∨ ∃ a, e = Logged Debug "Processing %s since %s [%v]" a).
Proof.
  unfold worker_start. step_m.
  destruct (json_Marshal_work _); simpl; split; try done; try (intros; by left).
  intros e [He | He%list_elem_of_singleton]%elem_of_app; [by left|right]. eauto.
Qed.

(** C2, as the code has it: when the connection cannot be acquired at the
    start of [run], the failure is logged critically, [start] is not called
    and the work function is not invoked; the deferred finish stage still
    runs with the connection error as [err].  When its own acquisition fails
    too, a second critical line is logged and nothing is written to the
    store; when it succeeds, [finish] is called on the pooled connection with
    the connection error. *)
Theorem run_without_connection_at_start (w : worker) (job : Job) (f : workerFunc) (ω : World) (e : err_value) :
  head (pool ω) = Some (Some e) →
  let critical := Logged Critical "Error on getting connection in worker on start %v: %v"
                    [LStr (fmt_s_worker w); LStr (error_Error e)] in
  let ω1 := snd (emit critical (snd (GetConn ω))) in
  let ω' := snd (worker_run w job f ω) in
  fst (run_body w job f ω) = (Good (Some e), None)
  ∧ snd (run_body w job f ω) = ω1
  ∧ redis ω1 = redis ω
  ∧ trace ω1 = trace ω ++ [critical]
  ∧ match head (pool ω1) with
    | Some (Some errCon) =>
        redis ω' = redis ω
        ∧ trace ω' = trace ω ++ [critical;
            Logged Critical "Error on getting connection in worker on finish %v: %v"
              [LStr (fmt_s_worker w); LStr (error_Error errCon)]]
    | _ =>
        let r := worker_finish w (redis ω) job (Some e) (snd (GetConn ω1)) in
        ω' = snd (PutConn (fst (fst r)) (snd r))
        ∧ redis ω' = fst (fst r)
        ∧ trace ω' = trace ω ++ [critical; Finishing job (Some e)]
    end.
Proof.
  intros E critical ω1 ω'.
  pose proof (run_body_unfold w job f ω) as B. rewrite E in B.
  assert (R : ω' = snd (run_finish w job (Good (Some e)) ω1)).
  { subst ω'. rewrite run_unfold. simpl. by rewrite B. }
  rewrite B. repeat split.
  rewrite R, run_finish_unfold.
  destruct (head (pool ω1)) as [[errCon|]|]; simpl.
  - split; [done|]. by rewrite <- app_assoc.
  - repeat split. rewrite finish_trace. simpl. by rewrite <- app_assoc.
  - repeat split. rewrite finish_trace. simpl. by rewrite <- app_assoc.
Qed.

(** C3, as the code has it: when the work function panics with a value that
    [recover()] returns, [recover] turns the panic into a Worker-Error whose
    message is the rendering of the recovered value and whose backtrace is
    the captured stack split in lines, which is never empty, and no panic
    leaves [run].  The deferred finish stage then runs with that
    Worker-Error: [finish] is called with it when the connection is
    acquired, and otherwise a critical line is logged and the connection is
    left alone.  Either way the loop goes on with the jobs that follow. *)
Theorem run_recovers_panic (w : worker) (job : Job) (f : workerFunc) (ω : World) (r : panic_value) (stack : string) :
  acquires 0 ω = true →
  f (job_Queue job) (Args (job_Payload job)) = Panic r stack →
  let workerError := NewWorkerError (fmt_Sprint r) (strings_Split stack LF) in
  let err := Some (WorkerErrorPtr workerError) in
  let ωb := snd (run_body w job f ω) in
  let ω' := snd (worker_run w job f ω) in
  Backtrace workerError = strings_Split stack LF
  ∧ Backtrace workerError ≠ []
  ∧ error_Error (WorkerErrorPtr workerError) = fmt_Sprint r
  ∧ fst (run_body w job f ω) = (Good None, Some (Some r, stack))
  ∧ run_recover (fst (fst (run_body w job f ω))) (snd (fst (run_body w job f ω)))
    = (Good err, None)
  ∧ worker_run w job f ω = (None, snd (run_finish w job (Good err) ωb))
  ∧ match head (pool ωb) with
    | Some (Some errCon) =>
        redis ω' = redis ωb
        ∧ trace ω' = trace ωb ++
            [Logged Critical "Error on getting connection in worker on finish %v: %v"
               [LStr (fmt_s_worker w); LStr (error_Error errCon)]]
    | _ =>
        let done := worker_finish w (redis ωb) job err (snd (GetConn ωb)) in
        redis ω' = fst (fst done)
        ∧ trace ω' = trace ωb ++ [Finishing job err]
    end
  ∧ ∀ jobs, workers !! Class (job_Payload job) = Some f →
      drain w (job :: jobs) ω
      = drain w jobs
          (snd (logger_Debugf "done: (Job{%s} | %s | %v)"
                  [LStr (job_Queue job); LStr (Class (job_Payload job));
                   LArgs (Args (job_Payload job))] ω')).
Proof.
  intros A P workerError err ωb ω'.
  assert (Hd : match head (pool ω) with Some (Some _) => False | _ => True end).
  { revert A. unfold acquires. by destruct (pool ω) as [|[x|] p]. }
  assert (B : fst (run_body w job f ω) = (Good None, Some (Some r, stack))).
  { rewrite run_body_unfold. destruct (head (pool ω)) as [[x|]|]; [done| |]; simpl; by rewrite P. }
  assert (R : worker_run w job f ω = (None, snd (run_finish w job (Good err) ωb))).
  { rewrite run_unfold. cbn zeta. rewrite B. cbn [fst snd run_recover].
    fold workerError. fold err. fold ωb. by rewrite run_finish_returns. }
  split; [done|]. split; [apply split_from_not_nil|]. split; [done|].
  split; [exact B|]. split; [by rewrite B|]. split; [exact R|]. split.
  - subst ω'. rewrite R. cbn [snd]. rewrite run_finish_unfold.
    destruct (head (pool ωb)) as [[errCon|]|]; simpl; try done;
      split; try done; by rewrite finish_trace.
  - intros jobs L. simpl. rewrite L. unfold bind at 1.
    subst ω'. rewrite R. reflexivity.
Qed.

(** *** The worker loop *)

(** The body of [run] that acquired the connection leaves the pool one
    acquisition shorter. *)
Lemma body_pool w job ω :
  pool (snd (emit (Invoked (job_Queue job) (Args (job_Payload job))) (started w job ω)))
  = tail (pool ω).
Proof.
  unfold started. cbn [emit PutConn snd pool].
  by rewrite (proj1 (start_world _ _ _ _)).
Qed.

(** A panic leaves [run] exactly when the work function returns an error
    that [fail] cannot read and the connection is acquired at the start and
    at the finish: the panic is the one of [fail]. *)
Lemma run_panics w job (f : workerFunc) ω p :
  fst (worker_run w job f ω) = Some p
  ↔ ∃ bad, f (job_Queue job) (Args (job_Payload job)) = ReturnBad bad
           ∧ p = panic_of bad
           ∧ acquires 0 ω = true
           ∧ acquires 1 ω = true.
Proof.
  rewrite run_panic, run_body_unfold.
  assert (A0 : acquires 0 ω = true ↔ match head (pool ω) with Some (Some _) => False | _ => True end).
  { unfold acquires. destruct (pool ω) as [|[x|] q]; simpl; split; done. }
  assert (A1 : acquires 1 ω = true ↔ match head (tail (pool ω)) with Some (Some _) => False | _ => True end).
  { unfold acquires. destruct (pool ω) as [|x [|[y|] q]]; simpl; split; done. }
  setoid_rewrite A0. setoid_rewrite A1. clear A0 A1.
  assert (G : ∀ ω1,
    fst (run_finish w job
           (fst (run_recover (fst (body_exit (f (job_Queue job) (Args (job_Payload job)))))
                             (snd (body_exit (f (job_Queue job) (Args (job_Payload job)))))))
           ω1) = Some p
    ↔ ∃ bad, f (job_Queue job) (Args (job_Payload job)) = ReturnBad bad
             ∧ p = panic_of bad
             ∧ match head (pool ω1) with Some (Some _) => False | _ => True end).
  { intros ω1. rewrite recover_body_exit. unfold verdict_of.
    destruct (f (job_Queue job) (Args (job_Payload job))) as [e|r stack|bad|stack].
    - rewrite run_finish_returns. split; [done|]. by intros (bad & ? & _).
    - rewrite run_finish_returns. split; [done|]. by intros (bad & ? & _).
    - rewrite run_finish_bad. destruct (head (pool ω1)) as [[e|]|]; simpl.
      + split; [done|]. by intros (? & _ & _ & ?).
      + split; [intros [= <-]; by exists bad|]. by intros (? & [= <-] & -> & _).
      + split; [intros [= <-]; by exists bad|]. by intros (? & [= <-] & -> & _).
    - rewrite run_finish_returns. split; [done|]. by intros (bad & ? & _). }
  destruct (head (pool ω)) as [[e|]|] eqn:P; cbn [fst snd run_recover].
  - rewrite run_finish_returns. split; [done|]. by intros (? & _ & _ & ? & _).
  - rewrite G, body_pool. split.
    + intros (bad & ? & ? & ?). by exists bad.
    + intros (bad & ? & ? & _ & ?). by exists bad.
  - rewrite G, body_pool. split.
    + intros (bad & ? & ? & ?). by exists bad.
    + intros (bad & ? & ? & _ & ?). by exists bad.
Qed.

Lemma drain_cons w job jobs ω :
  drain w (job :: jobs) ω
  = match next w job ω with
    | Some ω2 => drain w jobs ω2
    | None =>
        match workers !! Class (job_Payload job) with
        | Some f => (Crashed jobs, snd (worker_run w job f ω))
        | None => (Returned jobs, stopped w job ω)
        end
    end.
Proof.
  unfold next, stopped. simpl.
  destruct (workers !! Class (job_Payload job)) as [f|].
  - unfold bind at 1.
    destruct (worker_run w job f ω) as [[p|] ω2]; reflexivity.
  - fold (no_worker_message job).
    unfold bind, logger_Critical, logger_Criticalf, emit, GetConn, PutConn, ret. simpl.
    destruct (pool ω) as [|[e|] p]; simpl; try done;
      by destruct (worker_finish _ _ _ _ _) as [[c x] ω2].
Qed.

(** The loop goes on after a job unless it returns or a panic ends it. *)
Lemma next_None w job ω :
  next w job ω = None
  ↔ (workers !! Class (job_Payload job) = None ∧ ∃ e, head (pool ω) = Some (Some e))
    ∨ (∃ (f : workerFunc) bad, workers !! Class (job_Payload job) = Some f
                ∧ f (job_Queue job) (Args (job_Payload job)) = ReturnBad bad
                ∧ acquires 0 ω = true
                ∧ acquires 1 ω = true).
Proof.
  unfold next. destruct (workers !! Class (job_Payload job)) as [f|].
  - destruct (fst (worker_run w job f ω)) as [p|] eqn:R.
    + apply run_panics in R as (bad & ? & _ & ? & ?).
      split; [intros _; right; by exists f, bad|done].
    + split; [done|]. intros [[? _]|(f' & bad & [= <-] & B & A0 & A1)]; [done|].
      assert (R' : fst (worker_run w job f ω) = Some (panic_of bad)).
      { apply run_panics. by exists bad. }
      congruence.
  - destruct (head (pool ω)) as [[e|]|]; split; try done; eauto;
      by intros [[_ [e ?]]|(? & ? & ? & _)].
Qed.

(** The loop goes on after a job with a work function whose error can be
    read. *)
Lemma next_readable w job (f : workerFunc) ω :
  workers !! Class (job_Payload job) = Some f →
  readable_of f job →
  next w job ω
  = Some (snd (logger_Debugf "done: (Job{%s} | %s | %v)"
                 [LStr (job_Queue job); LStr (Class (job_Payload job));
                  LArgs (Args (job_Payload job))] (snd (worker_run w job f ω)))).
Proof.
  intros L R. unfold next. rewrite L.
  destruct (fst (worker_run w job f ω)) as [p|] eqn:E; [|done].
  apply run_panics in E as (bad & B & _). by destruct (R bad).
Qed.

(** How the loop ends before the channel is closed: it returns at a job
    without a work function for which the connection is not acquired. *)
Lemma drain_returned w jobs ω rest :
  fst (drain w jobs ω) = Returned rest
  ↔ ∃ before job e,
      jobs = before ++ job :: rest
      ∧ fst (drain w before ω) = ChannelClosed
      ∧ workers !! Class (job_Payload job) = None
      ∧ head (pool (snd (drain w before ω))) = Some (Some e).
Proof.
  split.
  - revert ω. induction jobs as [|job jobs IH]; intros ω; [done|].
    rewrite drain_cons. destruct (next w job ω) as [ω2|] eqn:N.
    + intros (before & j & e & -> & C & U & P)%IH.
      exists (job :: before), j, e. rewrite drain_cons, N. done.
    + destruct (workers !! Class (job_Payload job)) as [f|] eqn:L; [done|].
      simpl. intros [= ->].
      apply next_None in N as [[_ [e P]]|(f & bad & L' & _)]; [|congruence].
      by exists [], job, e.
  - intros (before & job & e & -> & C & U & P).
    revert ω C P. induction before as [|j before IH]; intros ω C P.
    + simpl in P. rewrite app_nil_l, drain_cons.
      rewrite (proj2 (next_None w job ω) (or_introl (conj U (ex_intro _ e P)))).
      by rewrite U.
    + rewrite <- app_comm_cons, drain_cons. rewrite drain_cons in C, P.
      destruct (next w j ω) as [ω2|]; [by apply IH|].
      by destruct (workers !! Class (job_Payload j)).
Qed.

(** The other way: a panic ends the goroutine at a job whose work function
    returns an error that [fail] cannot read, both connections of [run]
    being acquired. *)
Lemma drain_crashed w jobs ω rest :
  fst (drain w jobs ω) = Crashed rest
  ↔ ∃ before job (f : workerFunc) bad,
      jobs = before ++ job :: rest
      ∧ fst (drain w before ω) = ChannelClosed
      ∧ workers !! Class (job_Payload job) = Some f
      ∧ f (job_Queue job) (Args (job_Payload job)) = ReturnBad bad
      ∧ acquires 0 (snd (drain w before ω)) = true
      ∧ acquires 1 (snd (drain w before ω)) = true.
Proof.
  split.
  - revert ω. induction jobs as [|job jobs IH]; intros ω; [done|].
    rewrite drain_cons. destruct (next w job ω) as [ω2|] eqn:N.
    + intros (before & j & f & bad & -> & C & U & P)%IH.
      exists (job :: before), j, f, bad. rewrite drain_cons, N. done.
    + destruct (workers !! Class (job_Payload job)) as [f|] eqn:L; [|done].
      simpl. intros [= ->].
      apply next_None in N as [[? _]|(f' & bad & ? & ? & ? & ?)]; [congruence|].
      by exists [], job, f', bad.
  - intros (before & job & f & bad & -> & C & U & B & A0 & A1).
    revert ω C A0 A1. induction before as [|j before IH]; intros ω C A0 A1.
    + simpl in A0, A1. rewrite app_nil_l, drain_cons.
      rewrite (proj2 (next_None w job ω)); [by rewrite U|].
      right. by exists f, bad.
    + rewrite <- app_comm_cons, drain_cons. rewrite drain_cons in C, A0, A1.
      destruct (next w j ω) as [ω2|]; [by apply IH|].
      by destruct (workers !! Class (job_Payload j)).
Qed.

(** No panic ends the loop when every work function returns errors that can
    be read. *)
Lemma drain_not_crashed w jobs ω rest :
  (∀ job, job ∈ jobs → readable job) →
  fst (drain w jobs ω) ≠ Crashed rest.
Proof.
  intros R (before & job & f & bad & -> & _ & L & B & _)%drain_crashed.
  specialize (R job). unfold readable in R. rewrite L in R.
  destruct (R ltac:(set_solver) bad B).
Qed.

(** [work] starts the loop unless its first acquisition fails. *)
Lemma work_not_started w jobs ω :
  fst (worker_work w jobs ω) = NotStarted ↔ ∃ e, head (pool ω) = Some (Some e).
Proof.
  unfold worker_work, bind, GetConn, PutConn, monitor_Add, logger_Criticalf, emit, ret.
  destruct (pool ω) as [|[e|] p]; simpl.
  - destruct (drain w jobs _) as [x ω1]. simpl.
    destruct (pool ω1) as [|[e|] p1]; simpl; (split; [done|]); by intros [e' ?].
  - split; [eauto|done].
  - destruct (drain w jobs _) as [x ω1]. simpl.
    destruct (pool ω1) as [|[e|] p1]; simpl; (split; [done|]); by intros [e' ?].
Qed.

(** C1, as the code has it, for work functions that return errors [fail] can
    read: no panic ends the loop, and the loop returns before the channel is
    closed exactly when it meets a job without a work function for which the
    connection for the report cannot be acquired; every job before that one
    was handled and followed by the next.  In particular the loop goes on
    after a job with a work function whatever happens in [run]: a connection
    failure at the start or at the finish, an error returned, a recovered
    panic.  [work] itself does not start the loop exactly when its first
    acquisition fails. *)
Theorem drain_stops_only_without_connection_for_report (w : worker) (jobs : list Job) (ω : World) :
  (∀ job, job ∈ jobs → readable job) →
  (∀ rest, fst (drain w jobs ω) ≠ Crashed rest)
  ∧ (∀ rest,
       fst (drain w jobs ω) = Returned rest
       ↔ ∃ before job e,
           jobs = before ++ job :: rest
           ∧ fst (drain w before ω) = ChannelClosed
           ∧ workers !! Class (job_Payload job) = None
           ∧ head (pool (snd (drain w before ω))) = Some (Some e))
  ∧ (∀ job f rest ω1,
       workers !! Class (job_Payload job) = Some f →
       readable job →
       drain w (job :: rest) ω1
       = drain w rest
           (snd (logger_Debugf "done: (Job{%s} | %s | %v)"
                   [LStr (job_Queue job); LStr (Class (job_Payload job));
                    LArgs (Args (job_Payload job))] (snd (worker_run w job f ω1)))))
  ∧ ((∀ job, job ∈ jobs → is_Some (workers !! Class (job_Payload job))) →
       fst (drain w jobs ω) = ChannelClosed)
  ∧ (fst (worker_work w jobs ω) = NotStarted ↔ ∃ e, head (pool ω) = Some (Some e)).
Proof.
  intros Rd.
  split; [intros rest; by apply drain_not_crashed|].
  split; [intros rest; apply drain_returned|].
  split; [|split; [|apply work_not_started]].
  - intros job f rest ω1 L R. rewrite drain_cons.
    unfold readable in R. rewrite L in R. by rewrite (next_readable w job f ω1 L R).
  - intros R. destruct (fst (drain w jobs ω)) as [|rest|rest] eqn:D; [done| |].
    + apply drain_returned in D as (before & job & e & -> & _ & U & _).
      destruct (R job) as [f L]; [set_solver|congruence].
    + by apply drain_not_crashed in D.
Qed.

Lemma occurs_in_middle (a sub b : string) : occurs_in sub (a +:+ sub +:+ b).
Proof. by exists a, b. Qed.

Lemma append_assoc (a b c : string) : (a +:+ b) +:+ c = a +:+ b +:+ c.
Proof.
  induction a as [|x a IH]; [reflexivity|].
  change (String x ((a +:+ b) +:+ c) = String x (a +:+ b +:+ c)).
  by rewrite IH.
Qed.

(** C6, as the code has it: for a job whose class has no work function the
    loop calls no work function and builds an error text that contains the
    class and the queue.  When the connection for the report is acquired,
    [finish] is called with that error and the loop goes on: the trace gains
    the critical line and the mark of [finish], and, the Failure Record being
    serialized, its message is the error text and exactly one append of it to
    [<ns>failed] is buffered before the "mark as no-longer-busy" step, the
    delete of the heartbeat key and the flush.  When the connection is not
    acquired, nothing is appended and the loop returns. *)
Theorem unregistered_job_is_reported (w : worker) (job : Job) (jobs : list Job) (ω : World) :
  workers !! Class (job_Payload job) = None →
  let errorLog := no_worker_message job in
  let err := errors_New errorLog in
  occurs_in (Class (job_Payload job)) errorLog
  ∧ occurs_in (job_Queue job) errorLog
  ∧ match head (pool ω) with
    | Some (Some errCon) =>
        drain w (job :: jobs) ω = (Returned jobs, stopped w job ω)
        ∧ redis (stopped w job ω) = redis ω
        ∧ trace (stopped w job ω) = trace ω ++
            [Logged Critical errorLog [];
             Logged Critical "Error on getting connection in worker %v: %v"
               [LStr (fmt_s_worker w); LStr (error_Error errCon)]]
    | _ =>
        ∃ ω2,
          next w job ω = Some ω2
          ∧ drain w (job :: jobs) ω = drain w jobs ω2
          ∧ trace ω2 = trace ω ++ [Logged Critical errorLog []; Finishing job (Some err)]
          ∧ ∀ buffer,
              json_Marshal_failure (failure_of w job err (clock ω)) = inr buffer →
              failure_Error (failure_of w job err (clock ω)) = errorLog
              ∧ failure_Backtrace (failure_of w job err (clock ω)) = []
              ∧ redis ω2
                = fst (Flush (Send
                    (fst (process_fail (worker_process w)
                            (Send (redis ω) "RPUSH" [failed_key; buffer])))
                    "DEL" [heartbeat_key w]))
    end.
Proof.
  intros U errorLog err.
  split.
  { subst errorLog. unfold no_worker_message. apply occurs_in_middle. }
  split.
  { subst errorLog. unfold no_worker_message.
    exists (("No worker for " +:+ Class (job_Payload job)) +:+ " in queue "),
           (" with args " +:+ fmt_v (Args (job_Payload job))).
    by rewrite !append_assoc. }
  pose proof (drain_cons w job jobs ω) as D.
  unfold next in *. rewrite U in *.
  destruct (head (pool ω)) as [[errCon|]|] eqn:P.
  - split; [exact D|]. unfold stopped. rewrite P. simpl.
    split; [done|]. by rewrite <- app_assoc.
  - eexists. split; [reflexivity|]. split; [exact D|]. split.
    + simpl. rewrite finish_trace. simpl. by rewrite <- app_assoc.
    + intros buffer E. split; [done|]. split; [done|].
      exact (finish_failure w (redis ω) job err
               (snd (GetConn (snd (logger_Critical (no_worker_message job) ω)))) buffer E).
  - eexists. split; [reflexivity|]. split; [exact D|]. split.
    + simpl. rewrite finish_trace. simpl. by rewrite <- app_assoc.
    + intros buffer E. split; [done|]. split; [done|].
      exact (finish_failure w (redis ω) job err
               (snd (GetConn (snd (logger_Critical (no_worker_message job) ω)))) buffer E).
Qed.

(** What the three commands of a successful [finish] do to the store. *)
Lemma processed_counted w (st : gmap string rvalue) :
  counter_key st processed_key →
  counter_key st (processed_key_of w) →
  let st' := exec_all st [Cmd "INCR" [processed_key];
                          Cmd "INCR" [processed_key_of w];
                          Cmd "DEL" [heartbeat_key w]] in
  counter st' processed_key = counter st processed_key + 1
  ∧ counter st' (processed_key_of w) = counter st (processed_key_of w) + 1
  ∧ st' !! heartbeat_key w = None.
Proof.
  intros G P st'. subst st'. unfold exec_all. simpl fold_left.
  rewrite exec_DEL.
  pose proof (heartbeat_not_processed w) as N1.
  pose proof (heartbeat_not_processed_of w w) as N2.
  pose proof (processed_not_processed_of w) as N3.
  split; [|split].
  - rewrite <- (counter_INCR _ _ G). apply counter_ext.
    rewrite lookup_delete_ne by done.
    by apply lookup_INCR_other.
  - rewrite (counter_ext _ (exec (exec st (Cmd "INCR" [processed_key]))
                                 (Cmd "INCR" [processed_key_of w]))).
    2: by rewrite lookup_delete_ne.
    rewrite counter_INCR.
    + f_equal. apply counter_ext. by apply lookup_INCR_other.
    + eapply counter_key_ext; [|exact P]. symmetry. by apply lookup_INCR_other.
  - apply lookup_delete_eq.
Qed.

(** C5: the loop receives a job with a registered work function that returns
    nil, the connection being acquired at the start and at the finish of
    [run], nothing being left in the buffer of the pooled connection and the
    two counter keys being free or holding counters.  Then [finish] is called
    with a nil error, the batch it writes is one increment of
    [<ns>stat:processed], one increment of [<ns>stat:processed:<identity>] and
    the delete of the heartbeat key, each counter is one more than before the
    job, and the heartbeat key is absent from the server. *)
Theorem job_done_counts_once (w : worker) (job : Job) (f : workerFunc) (ω : World) :
  workers !! Class (job_Payload job) = Some f →
  f (job_Queue job) (Args (job_Payload job)) = Return None →
  acquires 0 ω = true →
  acquires 1 ω = true →
  pending (redis ω) = [] →
  counter_key (server (redis ω)) processed_key →
  counter_key (server (redis ω)) (processed_key_of w) →
  ∃ ω',
    drain w [job] ω = (ChannelClosed, ω')
    ∧ Finishing job None ∈ trace ω'
    ∧ last (wire (redis ω'))
      = Some [Cmd "INCR" [processed_key]; Cmd "INCR" [processed_key_of w];
              Cmd "DEL" [heartbeat_key w]]
    ∧ counter (server (redis ω')) processed_key
      = counter (server (redis ω)) processed_key + 1
    ∧ counter (server (redis ω')) (processed_key_of w)
      = counter (server (redis ω)) (processed_key_of w) + 1
    ∧ server (redis ω') !! heartbeat_key w = None.
Proof.
  intros L R A0 A1 Pe G P.
  rewrite drain_cons, (next_readable w job f ω L) by (intros bad; by rewrite R).
  eexists. split; [reflexivity|].
  assert (H0' : match head (pool ω) with Some (Some _) => False | _ => True end).
  { revert A0. unfold acquires. by destruct (pool ω) as [|[x|] p]. }
  assert (H1' : match head (tail (pool ω)) with Some (Some _) => False | _ => True end).
  { revert A1. unfold acquires. by destruct (pool ω) as [|x [|[y|] p]]. }
  (* the body *)
  set (ωb := snd (run_body w job f ω)).
  assert (B : fst (run_body w job f ω) = (Good None, None)).
  { rewrite run_body_unfold, R. by destruct (head (pool ω)) as [[x|]|]. }
  assert (Bw : ωb = snd (emit (Invoked (job_Queue job) (Args (job_Payload job)))
                           (started w job ω))).
  { subst ωb. rewrite run_body_unfold. by destruct (head (pool ω)) as [[x|]|]. }
  assert (Bp : pool ωb = tail (pool ω)).
  { rewrite Bw. unfold started. cbn [emit PutConn snd pool].
    by rewrite (proj1 (start_world _ _ _ _)). }
  (* the connection start leaves *)
  set (c := redis ωb).
  assert (C : pending c = []
              ∧ (∀ k, k ≠ heartbeat_key w → server c !! k = server (redis ω) !! k)).
  { subst c. rewrite Bw. unfold started. cbn [emit PutConn snd redis].
    rewrite start_unfold.
    destruct (json_Marshal_work _) as [e|buffer]; [done|].
    destruct (flush_after_send (redis ω) "SET" [heartbeat_key w; buffer]) as (Sp & _ & Ss).
    split; [done|]. intros k Hk. rewrite Ss, Pe. cbn [exec_all fold_left].
    rewrite exec_SET. by rewrite lookup_insert_ne. }
  destruct C as (Cp & Cs).
  (* the finish stage *)
  assert (F : snd (worker_run w job f ω)
              = (let r := worker_finish w c job None (snd (GetConn ωb)) in
                 snd (PutConn (fst (fst r)) (snd r)))).
  { rewrite run_unfold. cbn zeta. rewrite B. cbn [fst snd run_recover]. fold ωb.
    rewrite run_finish_unfold, Bp.
    by destruct (head (tail (pool ω))) as [[x|]|]. }
  cbn [logger_Debugf emit snd redis trace]. rewrite F. cbn zeta.
  cbn [PutConn snd redis trace].
  split.
  { rewrite finish_trace. set_solver. }
  rewrite finish_unfold. cbn [fst snd].
  destruct (flush_after_send (fst (worker_succeed w c job)) "DEL" [heartbeat_key w])
    as (_ & Fw & Fs).
  rewrite Fw, Fs. unfold worker_succeed. cbn [fst Send pending server wire].
  rewrite Cp. cbn [app].
  pose proof (processed_counted w (server c)) as K. cbn zeta in K.
  destruct K as (K1 & K2 & K3).
  { eapply counter_key_ext; [|exact G].
    symmetry. apply Cs. apply not_eq_sym, heartbeat_not_processed. }
  { eapply counter_key_ext; [|exact P].
    symmetry. apply Cs. apply not_eq_sym, heartbeat_not_processed_of. }
  split; [apply last_snoc|].
  split; [|split].
  - transitivity (counter (server c) processed_key + 1); [exact K1|].
    f_equal. apply counter_ext, Cs, not_eq_sym, heartbeat_not_processed.
  - transitivity (counter (server c) (processed_key_of w) + 1); [exact K2|].
    f_equal. apply counter_ext, Cs, not_eq_sym, heartbeat_not_processed_of.
  - exact K3.
Qed.

(** *** The worker as a whole *)

Lemma start_snd w conn job ω :
  snd (worker_start w conn job ω)
  = {| redis := redis ω; pool := pool ω; clock := clock ω + 1;
       trace := trace ω ++
         match json_Marshal_work {| work_Queue := job_Queue job; RunAt := clock ω;
                                    work_Payload := job_Payload job |} with
         | inr _ =>
             [Logged Debug "Processing %s since %s [%v]"
                [LStr (job_Queue job); LTime (clock ω); LStr (Class (job_Payload job))]]
         | inl _ => []
         end;
       monitor := monitor ω |}.
Proof.
  unfold worker_start. step_m.
  destruct (json_Marshal_work _); simpl; [|done]. by rewrite app_nil_r.
Qed.

Lemma finish_snd w conn job err ω :
  snd (worker_finish w conn job err ω)
  = {| redis := redis ω; pool := pool ω;
       clock := match err with Some _ => clock ω + 1 | None => clock ω end;
       trace := trace ω ++ [Finishing job err]; monitor := monitor ω |}.
Proof.
  rewrite finish_unfold. destruct err as [e|]; simpl; [|done].
  by rewrite fail_world.
Qed.

Lemma finish_pending w conn job err ω :
  pending (fst (fst (worker_finish w conn job err ω))) = [].
Proof. by rewrite finish_unfold. Qed.

Lemma start_pending w conn job ω :
  pending conn = [] → pending (fst (fst (worker_start w conn job ω))) = [].
Proof.
  intros E. rewrite start_unfold. by destruct (json_Marshal_work _).
Qed.

(** What the body of [run] does to the pool, the wait group and the buffer. *)
Lemma run_body_fields w job f ω :
  let ωb := snd (run_body w job f ω) in
  monitor ωb = monitor ω
  ∧ pool ωb = tail (pool ω)
  ∧ (pending (redis ω) = [] → pending (redis ωb) = []).
Proof.
  cbn zeta. rewrite run_body_unfold.
  destruct (head (pool ω)) as [[e|]|]; cbn [snd]; try done;
    unfold started; cbn [emit PutConn snd monitor pool redis];
    rewrite start_snd; cbn [monitor pool]; (split; [done|]); (split; [done|]);
    apply start_pending.
Qed.

(** What the deferred finish stage of [run] does to them. *)
Lemma run_finish_fields w job (err : held) ω :
  let ω' := snd (run_finish w job err ω) in
  monitor ω' = monitor ω
  ∧ pool ω' = tail (pool ω)
  ∧ (pending (redis ω) = [] → pending (redis ω') = []).
Proof.
  cbn zeta. destruct err as [err|bad].
  - rewrite run_finish_unfold.
    destruct (head (pool ω)) as [[e|]|]; cbn [snd]; try done;
      cbn zeta; cbn [PutConn snd monitor pool redis];
      rewrite finish_snd; cbn [monitor pool]; (split; [done|]); (split; [done|]);
      intros _; apply finish_pending.
  - rewrite run_finish_bad.
    destruct (head (pool ω)) as [[e|]|]; cbn [snd]; try done;
      by rewrite finish_any_bad.
Qed.

Lemma run_fields w job f ω :
  let ω' := snd (worker_run w job f ω) in
  monitor ω' = monitor ω
  ∧ pool ω' = tail (tail (pool ω))
  ∧ (pending (redis ω) = [] → pending (redis ω') = []).
Proof.
  cbn zeta. rewrite run_unfold. cbn zeta. cbn [snd].
  destruct (run_body_fields w job f ω) as (M1 & P1 & B1).
  destruct (run_finish_fields w job
              (fst (run_recover (fst (fst (run_body w job f ω)))
                                (snd (fst (run_body w job f ω)))))
              (snd (run_body w job f ω))) as (M2 & P2 & B2).
  split; [congruence|]. split; [congruence|]. auto.
Qed.

Lemma next_fields w job ω ω2 :
  next w job ω = Some ω2 →
  monitor ω2 = monitor ω
  ∧ (pending (redis ω) = [] → pending (redis ω2) = []).
Proof.
  unfold next. destruct (workers !! Class (job_Payload job)) as [f|].
  - destruct (fst (worker_run w job f ω)); [done|].
    intros [= <-]. destruct (run_fields w job f ω) as (M1 & _ & B1). done.
  - destruct (head (pool ω)) as [[e|]|]; [done| |];
      intros [= <-]; cbn zeta; cbn [PutConn snd monitor redis];
      rewrite finish_snd; (split; [done|]); intros _; apply finish_pending.
Qed.

Lemma stopped_fields w job ω :
  monitor (stopped w job ω) = monitor ω ∧ redis (stopped w job ω) = redis ω.
Proof. unfold stopped. by destruct (head (pool ω)) as [[e|]|]. Qed.

Lemma drain_fields w jobs ω :
  monitor (snd (drain w jobs ω)) = monitor ω
  ∧ (pending (redis ω) = [] → pending (redis (snd (drain w jobs ω))) = []).
Proof.
  revert ω. induction jobs as [|job jobs IH]; intros ω; [done|].
  rewrite drain_cons. destruct (next w job ω) as [ω2|] eqn:N.
  - destruct (next_fields _ _ _ _ N) as (M1 & B1).
    destruct (IH ω2) as (M2 & B2). split; [congruence|auto].
  - destruct (workers !! Class (job_Payload job)) as [f|]; cbn [snd].
    + destruct (run_fields w job f ω) as (M1 & _ & B1). done.
    + destruct (stopped_fields w job ω) as (M1 & R1).
      split; [done|]. by rewrite R1.
Qed.

(** X1: [work] leaves the counter of the wait group as it found it, however
    it ends: not started, channel closed, returned from the loop, or ended by
    a panic, the deferred function of the goroutine running in each case. *)
Theorem work_keeps_wait_group_balanced (w : worker) (jobs : list Job) (ω : World) :
  monitor (snd (worker_work w jobs ω)) = monitor ω.
Proof.
  unfold worker_work, bind, GetConn, PutConn, monitor_Add, logger_Criticalf, emit, ret.
  destruct (pool ω) as [|[e|] p]; simpl; [|done|].
  - match goal with |- context [drain w jobs ?W] =>
      pose proof (proj1 (drain_fields w jobs W)) as D;
      destruct (drain w jobs W) as [x ω1] end.
    simpl in *. destruct (pool ω1) as [|[e|] p1]; simpl; lia.
  - match goal with |- context [drain w jobs ?W] =>
      pose proof (proj1 (drain_fields w jobs W)) as D;
      destruct (drain w jobs W) as [x ω1] end.
    simpl in *. destruct (pool ω1) as [|[e|] p1]; simpl; lia.
Qed.

(** X2: given nil or an error that [fail] can read, and whatever [fail] and
    the "mark as no-longer-busy" step do to the connection, [finish] returns
    and leaves nothing in the buffer of the connection and the heartbeat key
    absent from the server.  Given an error that [fail] cannot read, [finish]
    does not return: it ends with the panic of [fail], and the pooled
    connection is as it was. *)
Theorem finish_removes_heartbeat_or_panics (w : worker) (conn : RedisConn) (job : Job) (err : held) (ω : World) :
  match err with
  | Good err =>
      ∃ conn' flushed,
        fst (worker_finish_any w conn job (Good err) ω) = inl (conn', flushed)
        ∧ conn' = fst (fst (worker_finish w conn job err ω))
        ∧ pending conn' = []
        ∧ server conn' !! heartbeat_key w = None
  | Bad bad =>
      fst (worker_finish_any w conn job (Bad bad) ω) = inr (panic_of bad)
      ∧ redis (snd (worker_finish_any w conn job (Bad bad) ω)) = redis ω
      ∧ trace (snd (worker_finish_any w conn job (Bad bad) ω))
        = trace ω ++ [FinishingBad job bad]
  end.
Proof.
  destruct err as [err|bad].
  - rewrite finish_any_good. cbn [fst].
    destruct (fst (worker_finish w conn job err ω)) as [conn' flushed] eqn:E.
    exists conn', flushed. split; [done|]. split; [done|].
    assert (C : conn' = fst (fst (worker_finish w conn job err ω))) by by rewrite E.
    rewrite C, finish_unfold. cbn zeta. cbn [fst].
    match goal with |- context [Flush (Send ?c "DEL" _)] =>
      destruct (flush_after_send c "DEL" [heartbeat_key w]) as (P & _ & S) end.
    split; [exact P|]. rewrite S, exec_DEL. apply lookup_delete_eq.
  - by rewrite finish_any_bad.
Qed.

(** X3: when nothing is buffered on the pooled connection before the loop,
    nothing is buffered on it after the loop, however many jobs were received
    and however each of them ended. *)
Theorem drain_keeps_buffer_empty (w : worker) (jobs : list Job) (ω : World) :
  pending (redis ω) = [] →
  pending (redis (snd (drain w jobs ω))) = [].
Proof. apply drain_fields. Qed.

Lemma failed_not_processed : failed_key ≠ processed_key.
Proof.
  unfold failed_key, processed_key. intros E.
  apply String.app_inj in E. simpl in E. discriminate.
Qed.

Lemma failed_not_processed_of w : failed_key ≠ processed_key_of w.
Proof.
  unfold failed_key, processed_key_of. intros E.
  apply String.app_inj in E. simpl in E. discriminate.
Qed.

Lemma list_at_ext (st st' : gmap string rvalue) k :
  st !! k = st' !! k → list_at st k = list_at st' k.
Proof. unfold list_at. by intros ->. Qed.

Lemma list_at_RPUSH (st : gmap string rvalue) k v :
  list_key st k → list_at (exec st (Cmd "RPUSH" [k; v])) k = list_at st k ++ [v].
Proof.
  intros [E | [l E]]; unfold list_at; cbn; rewrite E;
    by rewrite lookup_insert_eq.
Qed.

(** The store after a job that ends well: the three commands of [finish],
    executed on a store that differs from the one before the job at most on
    the heartbeat key. *)
Lemma job_done_store w job (f : workerFunc) ω :
  workers !! Class (job_Payload job) = Some f →
  verdict_of f job = Good None →
  acquires 0 ω = true →
  acquires 1 ω = true →
  pending (redis ω) = [] →
  ∃ ω' st,
    drain w [job] ω = (ChannelClosed, ω')
    ∧ (∀ k, k ≠ heartbeat_key w → st !! k = server (redis ω) !! k)
    ∧ server (redis ω')
      = exec_all st [Cmd "INCR" [processed_key]; Cmd "INCR" [processed_key_of w];
                     Cmd "DEL" [heartbeat_key w]].
Proof.
  intros L R A0 A1 Pe.
  assert (D : drain w [job] ω
              = (ChannelClosed,
                 snd (logger_Debugf "done: (Job{%s} | %s | %v)"
                        [LStr (job_Queue job); LStr (Class (job_Payload job));
                         LArgs (Args (job_Payload job))]
                        (snd (worker_run w job f ω))))).
  { rewrite drain_cons, (next_readable w job f ω L); [done|].
    intros bad E. unfold verdict_of in R. by rewrite E in R. }
  assert (H0' : match head (pool ω) with Some (Some _) => False | _ => True end).
  { revert A0. unfold acquires. by destruct (pool ω) as [|[x|] p]. }
  assert (H1' : match head (tail (pool ω)) with Some (Some _) => False | _ => True end).
  { revert A1. unfold acquires. by destruct (pool ω) as [|x [|[y|] p]]. }
  set (ωb := snd (run_body w job f ω)).
  assert (B : fst (run_recover (fst (fst (run_body w job f ω)))
                               (snd (fst (run_body w job f ω)))) = Good None).
  { rewrite <- R, run_body_unfold.
    destruct (head (pool ω)) as [[x|]|]; [done| |]; cbn [fst snd];
      apply recover_body_exit. }
  assert (Bw : ωb = snd (emit (Invoked (job_Queue job) (Args (job_Payload job)))
                           (started w job ω))).
  { subst ωb. rewrite run_body_unfold. by destruct (head (pool ω)) as [[x|]|]. }
  assert (Bp : pool ωb = tail (pool ω)) by apply run_body_fields.
  set (c := redis ωb).
  assert (C : pending c = []
              ∧ (∀ k, k ≠ heartbeat_key w → server c !! k = server (redis ω) !! k)).
  { subst c. rewrite Bw. unfold started. cbn [emit PutConn snd redis].
    rewrite start_unfold.
    destruct (json_Marshal_work _) as [e|buffer]; [done|].
    destruct (flush_after_send (redis ω) "SET" [heartbeat_key w; buffer]) as (Sp & _ & Ss).
    split; [done|]. intros k Hk. rewrite Ss, Pe. cbn [exec_all fold_left].
    rewrite exec_SET. by rewrite lookup_insert_ne. }
  destruct C as (Cp & Cs).
  assert (F : snd (worker_run w job f ω)
              = (let r := worker_finish w c job None (snd (GetConn ωb)) in
                 snd (PutConn (fst (fst r)) (snd r)))).
  { rewrite run_unfold. cbn zeta. cbn [snd]. rewrite B. fold ωb.
    rewrite run_finish_unfold, Bp.
    by destruct (head (tail (pool ω))) as [[x|]|]. }
  eexists. exists (server c). split; [exact D|]. split; [exact Cs|].
  cbn [logger_Debugf emit snd redis]. rewrite F. cbn zeta.
  cbn [PutConn snd redis].
  rewrite finish_unfold. cbn [fst snd].
  destruct (flush_after_send (fst (worker_succeed w c job)) "DEL" [heartbeat_key w])
    as (_ & _ & Fs).
  rewrite Fs. unfold worker_succeed. cbn [fst Send pending server].
  rewrite Cp. reflexivity.
Qed.

(** X4: a job that ends well changes nothing in the store but the heartbeat
    key and the two processed counters; in particular the failure list is as
    it was. *)
Theorem job_done_leaves_other_keys (w : worker) (job : Job) (f : workerFunc) (ω : World) :
  workers !! Class (job_Payload job) = Some f →
  f (job_Queue job) (Args (job_Payload job)) = Return None →
  acquires 0 ω = true →
  acquires 1 ω = true →
  pending (redis ω) = [] →
  ∃ ω',
    drain w [job] ω = (ChannelClosed, ω')
    ∧ (∀ k, k ≠ heartbeat_key w → k ≠ processed_key → k ≠ processed_key_of w →
         server (redis ω') !! k = server (redis ω) !! k)
    ∧ list_at (server (redis ω')) failed_key = list_at (server (redis ω)) failed_key.
Proof.
  intros L R A0 A1 Pe.
  assert (V : verdict_of f job = Good None) by (unfold verdict_of; by rewrite R).
  destruct (job_done_store w job f ω L V A0 A1 Pe) as (ω' & st & D & Cs & S).
  exists ω'. split; [exact D|].
  assert (K : ∀ k, k ≠ heartbeat_key w → k ≠ processed_key → k ≠ processed_key_of w →
              server (redis ω') !! k = server (redis ω) !! k).
  { intros k N1 N2 N3. rewrite S. unfold exec_all. simpl fold_left.
    rewrite exec_DEL, lookup_delete_ne by done.
    rewrite !lookup_INCR_other by done. by apply Cs. }
  split; [exact K|]. apply list_at_ext, K.
  - apply not_eq_sym, heartbeat_not_failed.
  - apply failed_not_processed.
  - apply failed_not_processed_of.
Qed.

(** X5: [finish] with an error whose Failure Record serializes: when the key
    of the failure list is free or holds a list and the "mark as
    no-longer-busy" step of [process] leaves that list alone, the list on the
    server is the one before, counting what was buffered, followed by the
    serialized record, and by nothing else. *)
Theorem failure_is_appended_once (w : worker) (conn : RedisConn) (job : Job) (err : err_value) (ω : World) (buffer : bytes) :
  json_Marshal_failure (failure_of w job err (clock ω)) = inr buffer →
  list_key (settled conn) failed_key →
  (∀ c, list_at (settled (fst (process_fail (worker_process w) c))) failed_key
        = list_at (settled c) failed_key) →
  let conn' := fst (fst (worker_finish w conn job (Some err) ω)) in
  list_at (server conn') failed_key = list_at (settled conn) failed_key ++ [buffer].
Proof.
  intros E Lk Keep. cbn zeta. rewrite (finish_failure _ _ _ _ _ _ E).
  match goal with |- context [Flush (Send ?c "DEL" _)] =>
    destruct (flush_after_send c "DEL" [heartbeat_key w]) as (_ & _ & S) end.
  rewrite S, exec_DEL.
  rewrite (list_at_ext _ (settled (fst (process_fail (worker_process w)
                                     (Send conn "RPUSH" [failed_key; buffer]))))).
  2: { apply lookup_delete_ne, heartbeat_not_failed. }
  rewrite Keep. unfold settled. cbn [Send pending server].
  rewrite exec_all_app. cbn [exec_all fold_left].
  by apply list_at_RPUSH.
Qed.

Lemma append_nil_r (s : string) : s +:+ "" = s.
Proof.
  induction s as [|c s IH]; [reflexivity|].
  change (String c (s +:+ "") = String c s). by rewrite IH.
Qed.

Lemma concat_split_from sep cur s :
  String.concat (String sep "") (split_from sep cur s) = cur +:+ s.
Proof.
  revert cur. induction s as [|c s IH]; intros cur; simpl.
  - by rewrite append_nil_r.
  - destruct (Ascii.eqb c sep) eqn:E.
    + apply Ascii.eqb_eq in E as ->.
      pose proof (IH "") as J. pose proof (split_from_not_nil sep "" s) as N.
      destruct (split_from sep "" s) as [|x xs]; [done|].
      change (cur +:+ String sep "" +:+ String.concat (String sep "") (x :: xs)
              = cur +:+ String sep s).
      rewrite J. reflexivity.
    + rewrite IH, append_assoc. reflexivity.
Qed.

Lemma has_char_app c a b : has_char c (a +:+ b) = has_char c a || has_char c b.
Proof.
  induction a as [|x a IH]; [reflexivity|].
  change (has_char c (String x (a +:+ b)) = has_char c (String x a) || has_char c b).
  simpl. by destruct (Ascii.eqb x c).
Qed.

Lemma split_from_no_sep sep cur s :
  has_char sep cur = false →
  Forall (λ part, has_char sep part = false) (split_from sep cur s).
Proof.
  revert cur. induction s as [|c s IH]; intros cur Hc; simpl.
  - by constructor.
  - destruct (Ascii.eqb c sep) eqn:E.
    + constructor; [done|]. by apply IH.
    + apply IH. rewrite has_char_app, Hc. simpl. by rewrite E.
Qed.

(** X6: the backtrace [run] gives to the Worker-Error of a panic loses
    nothing of the captured stack: no line of it holds a line feed, and its
    lines joined by line feeds are the stack. *)
Theorem backtrace_joins_to_stack (err : held) (r : panic_value) (stack : string) :
  ∃ workerError,
    fst (run_recover err (Some (Some r, stack))) = Good (Some (WorkerErrorPtr workerError))
    ∧ String.concat (String LF "") (Backtrace workerError) = stack
    ∧ Forall (λ line, has_char LF line = false) (Backtrace workerError).
Proof.
  eexists. split; [reflexivity|]. cbn [Backtrace NewWorkerError]. split.
  - unfold strings_Split. by rewrite concat_split_from.
  - by apply split_from_no_sep.
Qed.

Lemma finishings_app (a b : list event) :
  finishings (a ++ b) = finishings a ++ finishings b.
Proof.
  induction a as [|e a IH]; [done|]. destruct e; simpl; by rewrite IH.
Qed.

Lemma invocations_app (a b : list event) :
  invocations (a ++ b) = invocations a ++ invocations b.
Proof.
  induction a as [|e a IH]; [done|]. destruct e; simpl; by rewrite IH.
Qed.

Lemma store_up_head ω :
  store_up ω → match head (pool ω) with Some (Some _) => False | _ => True end.
Proof.
  unfold store_up. destruct (pool ω) as [|[e|] p]; simpl; try done.
  by intros [[=] _]%Forall_cons.
Qed.

Lemma Forall_tail_of {A} (P : A → Prop) (l : list A) : Forall P l → Forall P (tail l).
Proof. destruct l as [|x l]; simpl; [done|]. by intros [_ ?]%Forall_cons. Qed.

Lemma store_up_tail ω ω' : pool ω' = tail (pool ω) → store_up ω → store_up ω'.
Proof. unfold store_up. intros ->. apply Forall_tail_of. Qed.

Lemma store_up_acquires k ω : store_up ω → acquires k ω = true.
Proof.
  unfold store_up, acquires. intros U.
  destruct (pool ω !! k) as [[e|]|] eqn:E; [|done|done].
  by pose proof (proj1 (Forall_lookup _ _) U k _ E).
Qed.

(** [run] with the connection at both stages: one call of the work function,
    then one call of [finish], with the error [recover] leaves. *)
Lemma run_acquired w job (f : workerFunc) ω :
  acquires 0 ω = true →
  acquires 1 ω = true →
  let ω' := snd (worker_run w job f ω) in
  finishings (trace ω') = finishings (trace ω) ++ [(job, verdict_of f job)]
  ∧ invocations (trace ω')
    = invocations (trace ω) ++ [(job_Queue job, Args (job_Payload job))].
Proof.
  intros A0 A1. cbn zeta.
  assert (Hd : match head (pool ω) with Some (Some _) => False | _ => True end).
  { revert A0. unfold acquires. by destruct (pool ω) as [|[x|] p]. }
  set (ωb := snd (run_body w job f ω)).
  assert (Hb : match head (pool ωb) with Some (Some _) => False | _ => True end).
  { subst ωb. rewrite (proj1 (proj2 (run_body_fields w job f ω))).
    revert A1. unfold acquires. by destruct (pool ω) as [|x [|[y|] p]]. }
  assert (Tb : trace ωb
               = trace (started w job ω) ++ [Invoked (job_Queue job) (Args (job_Payload job))]).
  { subst ωb. rewrite run_body_unfold. by destruct (head (pool ω)) as [[x|]|]. }
  assert (Ts : ∃ logs, trace (started w job ω) = trace ω ++ logs
                       ∧ finishings logs = [] ∧ invocations logs = []).
  { unfold started. cbn [PutConn snd trace]. rewrite start_snd. cbn [trace].
    eexists. split; [reflexivity|]. by destruct (json_Marshal_work _). }
  destruct Ts as (logs & Ts & Fl & Il).
  assert (B : fst (run_recover (fst (fst (run_body w job f ω)))
                               (snd (fst (run_body w job f ω))))
              = verdict_of f job).
  { rewrite run_body_unfold.
    destruct (head (pool ω)) as [[x|]|]; [done| |]; cbn [fst snd];
      apply recover_body_exit. }
  rewrite run_unfold. cbn zeta. cbn [snd]. fold ωb. rewrite B.
  destruct (verdict_of f job) as [err|bad].
  - rewrite run_finish_unfold.
    assert (T : trace (let r := worker_finish w (redis ωb) job err (snd (GetConn ωb)) in
                       snd (PutConn (fst (fst r)) (snd r)))
                = trace ωb ++ [Finishing job err]).
    { cbn zeta. cbn [PutConn snd trace]. by rewrite finish_snd. }
    destruct (head (pool ωb)) as [[x|]|]; [done| |];
      rewrite T, Tb, Ts, !finishings_app, !invocations_app, Fl, Il;
      simpl; by rewrite !app_nil_r.
  - rewrite run_finish_bad.
    destruct (head (pool ωb)) as [[x|]|]; [done| |];
      cbn [snd]; rewrite finish_any_bad; cbn [snd trace GetConn];
      rewrite Tb, Ts, !finishings_app, !invocations_app, Fl, Il;
      simpl; by rewrite !app_nil_r.
Qed.

(** [run] with the store up. *)
Lemma run_up w job (f : workerFunc) ω :
  store_up ω →
  let ω' := snd (worker_run w job f ω) in
  store_up ω'
  ∧ finishings (trace ω') = finishings (trace ω) ++ [(job, verdict_of f job)]
  ∧ invocations (trace ω')
    = invocations (trace ω) ++ [(job_Queue job, Args (job_Payload job))].
Proof.
  intros U. cbn zeta.
  destruct (run_fields w job f ω) as (_ & P & _).
  split.
  { unfold store_up in *. rewrite P. by apply Forall_tail_of, Forall_tail_of. }
  apply run_acquired; by apply store_up_acquires.
Qed.

Lemma next_up w job ω :
  store_up ω →
  readable job →
  ∃ ω2,
    next w job ω = Some ω2
    ∧ store_up ω2
    ∧ finishings (trace ω2) = finishings (trace ω) ++ [(job, verdict job)]
    ∧ invocations (trace ω2) = invocations (trace ω) ++ call_of job.
Proof.
  intros U R. unfold readable, verdict, call_of in *.
  destruct (workers !! Class (job_Payload job)) as [f|] eqn:L.
  - rewrite (next_readable w job f ω L R).
    eexists. split; [reflexivity|].
    destruct (run_up w job f ω U) as (U' & F & I).
    cbn [logger_Debugf emit snd trace pool]. split; [exact U'|].
    rewrite finishings_app, invocations_app, F, I. simpl.
    by rewrite !app_nil_r.
  - unfold next. rewrite L.
    pose proof (store_up_head ω U) as Hd.
    assert (X : ∀ r : World,
              r = (let r := worker_finish w (redis ω) job
                              (Some (errors_New (no_worker_message job)))
                              (snd (GetConn (snd (logger_Critical (no_worker_message job) ω)))) in
                   snd (PutConn (fst (fst r)) (snd r))) →
              store_up r
              ∧ finishings (trace r)
                = finishings (trace ω) ++ [(job, Good (Some (errors_New (no_worker_message job))))]
              ∧ invocations (trace r) = invocations (trace ω) ++ []).
    { intros r ->. cbn zeta. cbn [PutConn snd trace]. rewrite finish_snd. split.
      - eapply store_up_tail; [|exact U]. reflexivity.
      - cbn [trace GetConn logger_Critical emit snd].
        rewrite !finishings_app, !invocations_app. simpl.
        by rewrite !app_nil_r. }
    destruct (head (pool ω)) as [[x|]|]; [done| |];
      (eexists; split; [reflexivity|]; by apply X).
Qed.

(** The loop with the store up. *)
Lemma drain_up (w : worker) (jobs : list Job) (ω : World) :
  store_up ω →
  (∀ job, job ∈ jobs → readable job) →
  ∃ ω',
    drain w jobs ω = (ChannelClosed, ω')
    ∧ store_up ω'
    ∧ finishings (trace ω')
      = finishings (trace ω) ++ map (λ job, (job, verdict job)) jobs
    ∧ invocations (trace ω') = invocations (trace ω) ++ flat_map call_of jobs.
Proof.
  revert ω. induction jobs as [|job jobs IH]; intros ω U R.
  - exists ω. simpl. by rewrite !app_nil_r.
  - destruct (next_up w job ω U) as (ω2 & N & U2 & F2 & I2).
    { apply R. set_solver. }
    destruct (IH ω2 U2) as (ω' & D & U' & F & I).
    { intros j Hj. apply R. set_solver. }
    exists ω'. rewrite drain_cons, N. split; [exact D|]. split; [exact U'|].
    rewrite F, I, F2, I2. simpl. by rewrite <- !app_assoc.
Qed.

(** X7: with the store up and work functions that return nil or errors
    [fail] can read, the loop goes through every job it receives and calls
    [finish] exactly once for each, in the order of arrival, with the error
    the job ends with: what its work function returned, the Worker-Error of
    its panic, nil when [recover()] returns nil for its panic, or the error
    of a class without a work function; and it calls the work functions of
    the jobs that have one, once each and in that order. *)
Theorem drain_finishes_every_job_once (w : worker) (jobs : list Job) (ω : World) :
  store_up ω →
  (∀ job, job ∈ jobs → readable job) →
  ∃ ω',
    drain w jobs ω = (ChannelClosed, ω')
    ∧ store_up ω'
    ∧ finishings (trace ω')
      = finishings (trace ω) ++ map (λ job, (job, verdict job)) jobs
    ∧ invocations (trace ω') = invocations (trace ω) ++ flat_map call_of jobs.
Proof. apply drain_up. Qed.

(** [run] with the store down at both stages. *)
Lemma run_down w job (f : workerFunc) ω e1 e2 rest :
  pool ω = Some e1 :: Some e2 :: rest →
  let ω' := snd (worker_run w job f ω) in
  fst (worker_run w job f ω) = None
  ∧ redis ω' = redis ω
  ∧ pool ω' = rest
  ∧ finishings (trace ω') = finishings (trace ω)
  ∧ invocations (trace ω') = invocations (trace ω).
Proof.
  intros P. cbn zeta. split.
  { rewrite run_panic, run_body_unfold, P. cbn [head fst snd run_recover].
    apply run_finish_returns. }
  rewrite run_unfold. cbn zeta. cbn [snd].
  rewrite run_body_unfold, P. cbn [head fst snd run_recover].
  rewrite run_finish_unfold. cbn [GetConn logger_Criticalf emit snd pool].
  rewrite P. cbn [tail head snd redis pool trace].
  rewrite !finishings_app, !invocations_app. simpl.
  by rewrite !app_nil_r.
Qed.

(** X8: with the store down for the two acquisitions of every job, the loop
    still receives every job that has a work function, but calls no work
    function and no [finish], and leaves the connection as it was: the jobs
    are dropped with critical lines in the log only. *)
Theorem drain_drops_jobs_while_store_down (w : worker) (jobs : list Job) (ω : World) (errs : list err_value) (rest : list error) :
  (∀ job, job ∈ jobs → is_Some (workers !! Class (job_Payload job))) →
  pool ω = (Some <$> errs) ++ rest →
  length errs = (2 * length jobs)%nat →
  ∃ ω',
    drain w jobs ω = (ChannelClosed, ω')
    ∧ redis ω' = redis ω
    ∧ pool ω' = rest
    ∧ invocations (trace ω') = invocations (trace ω)
    ∧ finishings (trace ω') = finishings (trace ω).
Proof.
  revert ω errs. induction jobs as [|job jobs IH]; intros ω errs R P Le.
  - destruct errs; [|done]. by exists ω.
  - destruct errs as [|e1 [|e2 errs]]; simpl in Le; try lia.
    destruct (R job) as [f L]; [set_solver|].
    rewrite !fmap_cons in P. simpl in P.
    destruct (run_down w job f ω e1 e2 _ P) as (N1 & R1 & P1 & F1 & I1).
    set (ω2 := snd (logger_Debugf "done: (Job{%s} | %s | %v)"
                      [LStr (job_Queue job); LStr (Class (job_Payload job));
                       LArgs (Args (job_Payload job))]
                      (snd (worker_run w job f ω)))).
    assert (N : next w job ω = Some ω2).
    { unfold next. by rewrite L, N1. }
    destruct (IH ω2 errs) as (ω' & D & R' & P' & I' & F').
    { intros j Hj. apply R. set_solver. }
    { exact P1. }
    { lia. }
    exists ω'. rewrite drain_cons, N. split; [exact D|].
    split; [by rewrite R'|]. split; [exact P'|].
    subst ω2. cbn [logger_Debugf emit snd trace] in I', F'.
    rewrite finishings_app in F'. rewrite invocations_app in I'.
    simpl in I', F'. rewrite app_nil_r in I', F'.
    split; congruence.
Qed.

Lemma work_unfold w jobs ω :
  worker_work w jobs ω
  = match head (pool ω) with
    | Some (Some err) =>
        (NotStarted,
         {| redis := redis ω; pool := tail (pool ω); clock := clock ω;
            trace := trace ω ++
              [Logged Critical "Error on getting connection in worker %v: %v"
                 [LStr (fmt_s_worker w); LStr (error_Error err)]];
            monitor := monitor ω |})
    | _ =>
        let d := drain w jobs
                   {| redis := fst (process_open (worker_process w) (redis ω));
                      pool := tail (pool ω); clock := clock ω; trace := trace ω;
                      monitor := monitor ω + 1 |} in
        (Drained (fst d), closed w (snd d))
    end.
Proof.
  unfold worker_work, closed, bind, GetConn, PutConn, monitor_Add, logger_Criticalf,
    emit, ret.
  destruct (pool ω) as [|[e|] p]; simpl; try done;
    destruct (drain w jobs _) as [x ω1]; simpl;
    by destruct (pool ω1) as [|[e|] p1].
Qed.

(** X9: [work] with the store up and work functions that return nil or
    errors [fail] can read: the worker is opened on the pooled connection,
    the loop runs from there until the channel is closed, [finish] is called
    exactly once for every job received, in the order of arrival and with the
    error the job ends with, the worker is closed on the connection the loop
    leaves, and the wait group is as before. *)
Theorem work_finishes_every_job_once (w : worker) (jobs : list Job) (ω : World) :
  store_up ω →
  (∀ job, job ∈ jobs → readable job) →
  let opened := {| redis := fst (process_open (worker_process w) (redis ω));
                   pool := tail (pool ω); clock := clock ω; trace := trace ω;
                   monitor := monitor ω + 1 |} in
  ∃ ω1 ω',
    drain w jobs opened = (ChannelClosed, ω1)
    ∧ worker_work w jobs ω = (Drained ChannelClosed, ω')
    ∧ redis ω' = fst (process_close (worker_process w) (redis ω1))
    ∧ trace ω' = trace ω1
    ∧ finishings (trace ω')
      = finishings (trace ω) ++ map (λ job, (job, verdict job)) jobs
    ∧ invocations (trace ω') = invocations (trace ω) ++ flat_map call_of jobs
    ∧ monitor ω' = monitor ω.
Proof.
  intros U R W. pose proof (store_up_head ω U) as Hd.
  rewrite work_unfold.
  assert (UW : store_up W) by (eapply store_up_tail; [reflexivity|exact U]).
  destruct (drain_up w jobs W UW R) as (ω1 & D & U1 & F & I).
  pose proof (proj1 (drain_fields w jobs W)) as Mo. rewrite D in Mo.
  pose proof (store_up_head ω1 U1) as H1.
  exists ω1.
  assert (X : ∀ r : work_exit * World,
            r = (Drained (fst (drain w jobs W)), closed w (snd (drain w jobs W))) →
            ∃ ω', (ChannelClosed, ω1) = (ChannelClosed, ω1)
                  ∧ r = (Drained ChannelClosed, ω')
                  ∧ redis ω' = fst (process_close (worker_process w) (redis ω1))
                  ∧ trace ω' = trace ω1
                  ∧ finishings (trace ω')
                    = finishings (trace ω) ++ map (λ job, (job, verdict job)) jobs
                  ∧ invocations (trace ω') = invocations (trace ω) ++ flat_map call_of jobs
                  ∧ monitor ω' = monitor ω).
  { intros r ->. rewrite D. cbn [fst snd]. eexists. split; [reflexivity|].
    split; [reflexivity|].
    unfold closed. cbn [snd monitor] in Mo.
    destruct (head (pool ω1)) as [[e|]|]; [done| |]; cbn [redis trace monitor];
      (split; [done|]); (split; [done|]);
      (split; [exact F|]); (split; [exact I|]); subst W; cbn [monitor] in Mo; lia. }
  rewrite D.
  destruct (head (pool ω)) as [[e|]|]; [done| |]; by apply X.
Qed.

(** X10: [run] acquires the connection at the start and not at the finish
    stage, the Work Record being serialized and nothing being buffered
    before: whatever the work function did, [finish] is not called and the
    heartbeat key stays on the server with the Work Record. *)
Theorem run_leaves_heartbeat_without_connection_at_finish (w : worker) (job : Job) (f : workerFunc) (ω : World) (e : err_value) (buffer : bytes) :
  acquires 0 ω = true →
  pool ω !! 1%nat = Some (Some e) →
  json_Marshal_work {| work_Queue := job_Queue job; RunAt := clock ω;
                       work_Payload := job_Payload job |} = inr buffer →
  pending (redis ω) = [] →
  let ω' := snd (worker_run w job f ω) in
  server (redis ω') !! heartbeat_key w = Some (RString buffer)
  ∧ finishings (trace ω') = finishings (trace ω)
  ∧ invocations (trace ω')
    = invocations (trace ω) ++ [(job_Queue job, Args (job_Payload job))].
Proof.
  intros A0 P1 E Pe. cbn zeta.
  assert (Hd : match head (pool ω) with Some (Some _) => False | _ => True end).
  { revert A0. unfold acquires. by destruct (pool ω) as [|[x|] p]. }
  assert (Ht : head (tail (pool ω)) = Some (Some e)).
  { revert P1. by destruct (pool ω) as [|x [|y p]]. }
  set (ωb := snd (run_body w job f ω)).
  assert (Bw : ωb = snd (emit (Invoked (job_Queue job) (Args (job_Payload job)))
                           (started w job ω))).
  { subst ωb. rewrite run_body_unfold. by destruct (head (pool ω)) as [[x|]|]. }
  assert (Bp : pool ωb = tail (pool ω)) by apply run_body_fields.
  assert (Br : redis ωb = fst (Flush (Send (redis ω) "SET" [heartbeat_key w; buffer]))).
  { rewrite Bw. unfold started. cbn [emit PutConn snd redis].
    rewrite start_unfold. cbn [GetConn snd clock]. by rewrite E. }
  assert (Bt : trace ωb
               = trace ω ++
                 [Logged Debug "Processing %s since %s [%v]"
                    [LStr (job_Queue job); LTime (clock ω); LStr (Class (job_Payload job))];
                  Invoked (job_Queue job) (Args (job_Payload job))]).
  { rewrite Bw. unfold started. cbn [emit PutConn snd trace].
    rewrite start_snd. cbn [trace GetConn snd clock]. rewrite E.
    by rewrite <- app_assoc. }
  rewrite run_unfold. cbn zeta. cbn [snd]. fold ωb.
  rewrite (run_finish_down w job _ ωb e) by by rewrite Bp.
  cbn [logger_Criticalf emit GetConn snd redis trace]. rewrite Br, Bt.
  destruct (flush_after_send (redis ω) "SET" [heartbeat_key w; buffer]) as (_ & _ & S).
  split.
  - rewrite S, Pe. cbn [exec_all fold_left]. rewrite exec_SET. apply lookup_insert_eq.
  - rewrite !finishings_app, !invocations_app. simpl. by rewrite !app_nil_r.
Qed.

(** X11: the goroutine of [work] is ended by a panic exactly at a job whose work
    function returns an error that [fail] cannot read, when [run] acquires
    the connection at its start and in its deferred finish: the jobs after
    it are not received. *)
Theorem drain_crashes_exactly_on_unreadable_error (w : worker) (jobs : list Job) (ω : World) (rest : list Job) :
  fst (drain w jobs ω) = Crashed rest
  ↔ ∃ before job (f : workerFunc) bad,
      jobs = before ++ job :: rest
      ∧ fst (drain w before ω) = ChannelClosed
      ∧ workers !! Class (job_Payload job) = Some f
      ∧ f (job_Queue job) (Args (job_Payload job)) = ReturnBad bad
      ∧ acquires 0 (snd (drain w before ω)) = true
      ∧ acquires 1 (snd (drain w before ω)) = true.
Proof. apply drain_crashed. Qed.

(** X12: a work function returns an error that [fail] cannot read, [run] having
    the connection at both stages, the Work Record being serialized and
    nothing being buffered before: [finish] is entered once with that error,
    the panic of [fail] leaves [run] and ends the loop with the jobs that
    follow not received, nothing is sent after the set of [start], and the
    heartbeat key stays on the server with the Work Record. *)
Theorem unreadable_error_ends_goroutine (w : worker) (job : Job) (f : workerFunc) (rest : list Job) (ω : World) (bad : unreadable) (buffer : bytes) :
  workers !! Class (job_Payload job) = Some f →
  f (job_Queue job) (Args (job_Payload job)) = ReturnBad bad →
  acquires 0 ω = true →
  acquires 1 ω = true →
  json_Marshal_work {| work_Queue := job_Queue job; RunAt := clock ω;
                       work_Payload := job_Payload job |} = inr buffer →
  pending (redis ω) = [] →
  let ω' := snd (worker_run w job f ω) in
  fst (worker_run w job f ω) = Some (panic_of bad)
  ∧ drain w (job :: rest) ω = (Crashed rest, ω')
  ∧ finishings (trace ω') = finishings (trace ω) ++ [(job, Bad bad)]
  ∧ invocations (trace ω')
    = invocations (trace ω) ++ [(job_Queue job, Args (job_Payload job))]
  ∧ redis ω' = fst (Flush (Send (redis ω) "SET" [heartbeat_key w; buffer]))
  ∧ server (redis ω') !! heartbeat_key w = Some (RString buffer).
Proof.
  intros L B A0 A1 E Pe. cbn zeta.
  assert (P1 : fst (worker_run w job f ω) = Some (panic_of bad)).
  { apply run_panics. by exists bad. }
  assert (V : verdict_of f job = Bad bad) by (unfold verdict_of; by rewrite B).
  destruct (run_acquired w job f ω A0 A1) as (F & I). rewrite V in F.
  assert (Hd : match head (pool ω) with Some (Some _) => False | _ => True end).
  { revert A0. unfold acquires. by destruct (pool ω) as [|[x|] p]. }
  set (ωb := snd (run_body w job f ω)).
  assert (Hb : match head (pool ωb) with Some (Some _) => False | _ => True end).
  { subst ωb. rewrite (proj1 (proj2 (run_body_fields w job f ω))).
    revert A1. unfold acquires. by destruct (pool ω) as [|x [|[y|] p]]. }
  assert (Bw : ωb = snd (emit (Invoked (job_Queue job) (Args (job_Payload job)))
                           (started w job ω))).
  { subst ωb. rewrite run_body_unfold. by destruct (head (pool ω)) as [[x|]|]. }
  assert (Br : redis ωb = fst (Flush (Send (redis ω) "SET" [heartbeat_key w; buffer]))).
  { rewrite Bw. unfold started. cbn [emit PutConn snd redis].
    rewrite start_unfold. cbn [GetConn snd clock]. by rewrite E. }
  assert (Bv : fst (run_recover (fst (fst (run_body w job f ω)))
                                (snd (fst (run_body w job f ω)))) = Bad bad).
  { rewrite <- V, run_body_unfold.
    destruct (head (pool ω)) as [[x|]|]; [done| |]; cbn [fst snd];
      apply recover_body_exit. }
  assert (R : redis (snd (worker_run w job f ω)) = redis ωb).
  { rewrite run_unfold. cbn zeta. cbn [snd]. fold ωb. rewrite Bv, run_finish_bad.
    destruct (head (pool ωb)) as [[x|]|]; [done| |];
      cbn [snd]; by rewrite finish_any_bad. }
  split; [exact P1|]. split.
  { rewrite drain_cons. unfold next. by rewrite L, P1. }
  split; [exact F|]. split; [exact I|].
  rewrite R, Br. split; [done|].
  destruct (flush_after_send (redis ω) "SET" [heartbeat_key w; buffer]) as (_ & _ & S).
  rewrite S, Pe. cbn [exec_all fold_left]. rewrite exec_SET. apply lookup_insert_eq.
Qed.

(** X14: a work function panics and [recover()] returns nil for the panic, [run]
    having the connection at both stages: the panic is ended, [err] stays
    nil, and the job is finished as one that succeeded: [finish] is called
    once, with a nil error, each processed counter is one more than before,
    the failure list is as it was, and the loop goes on. *)
Theorem nil_panic_is_counted_as_success (w : worker) (job : Job) (f : workerFunc) (ω : World) (stack : string) :
  workers !! Class (job_Payload job) = Some f →
  f (job_Queue job) (Args (job_Payload job)) = PanicNil stack →
  acquires 0 ω = true →
  acquires 1 ω = true →
  pending (redis ω) = [] →
  counter_key (server (redis ω)) processed_key →
  counter_key (server (redis ω)) (processed_key_of w) →
  ∃ ω',
    drain w [job] ω = (ChannelClosed, ω')
    ∧ finishings (trace ω') = finishings (trace ω) ++ [(job, Good None)]
    ∧ counter (server (redis ω')) processed_key
      = counter (server (redis ω)) processed_key + 1
    ∧ counter (server (redis ω')) (processed_key_of w)
      = counter (server (redis ω)) (processed_key_of w) + 1
    ∧ list_at (server (redis ω')) failed_key = list_at (server (redis ω)) failed_key.
Proof.
  intros L B A0 A1 Pe G P.
  assert (V : verdict_of f job = Good None) by (unfold verdict_of; by rewrite B).
  destruct (job_done_store w job f ω L V A0 A1 Pe) as (ω' & st & D & Cs & S).
  exists ω'. split; [exact D|].
  assert (D2 : drain w [job] ω
               = (ChannelClosed,
                  snd (logger_Debugf "done: (Job{%s} | %s | %v)"
                         [LStr (job_Queue job); LStr (Class (job_Payload job));
                          LArgs (Args (job_Payload job))]
                         (snd (worker_run w job f ω))))).
  { rewrite drain_cons, (next_readable w job f ω L); [done|].
    intros x E. by rewrite E in B. }
  split.
  { rewrite D in D2. injection D2 as ->.
    destruct (run_acquired w job f ω A0 A1) as (F & _). rewrite V in F.
    cbn [logger_Debugf emit snd trace]. rewrite finishings_app, F. simpl.
    by rewrite app_nil_r. }
  pose proof (processed_counted w st) as K. cbn zeta in K.
  destruct K as (K1 & K2 & _).
  { eapply counter_key_ext; [|exact G].
    symmetry. apply Cs. apply not_eq_sym, heartbeat_not_processed. }
  { eapply counter_key_ext; [|exact P].
    symmetry. apply Cs. apply not_eq_sym, heartbeat_not_processed_of. }
  rewrite S. split; [|split].
  - rewrite K1. f_equal. apply counter_ext, Cs, not_eq_sym, heartbeat_not_processed.
  - rewrite K2. f_equal. apply counter_ext, Cs, not_eq_sym, heartbeat_not_processed_of.
  - apply list_at_ext. unfold exec_all. simpl fold_left.
    rewrite exec_DEL, lookup_delete_ne by apply heartbeat_not_failed.
    rewrite !lookup_INCR_other
      by (apply not_eq_sym; first [apply failed_not_processed | apply failed_not_processed_of]).
    apply Cs, not_eq_sym, heartbeat_not_failed.
Qed.

End Properties.

(** ** The properties on the concrete package *)

Import Demo.

Lemma finish_batches_example :
  wire (fst (fst (worker_finish w1 fresh (job "Echo") None (world []))))
  = [[Cmd "INCR" ["resque:stat:processed"]; Cmd "INCR" ["resque:stat:processed:w1"];
      Cmd "DEL" ["resque:worker:w1"]]]
  ∧ wire (fst (fst (worker_finish w1 fresh (job "Fail") (Some (PlainError "no luck")) (world []))))
    = [[Cmd "RPUSH" ["resque:failed"; "failure:no luck"]; Cmd "DEL" ["resque:worker:w1"]]].
Proof. split; reflexivity. Qed.

Lemma job_done_counts_once_witness :
  workers !! Class (job_Payload (job "Echo")) = Some echo
  ∧ acquires 0 (world []) = true
  ∧ acquires 1 (world []) = true
  ∧ ∃ ω',
      drain w1 [job "Echo"] (world []) = (ChannelClosed, ω')
      ∧ counter (server (redis ω')) "resque:stat:processed" = 1
      ∧ counter (server (redis ω')) "resque:stat:processed:w1" = 1
      ∧ server (redis ω') !! "resque:worker:w1" = None.
Proof.
  split; [reflexivity|]. split; [reflexivity|]. split; [reflexivity|].
  destruct (job_done_counts_once w1 (job "Echo") echo (world []))
    as (ω' & N & _ & _ & C1 & C2 & Hb);
    [reflexivity | reflexivity | reflexivity | reflexivity | reflexivity
    | by left | by left |].
  exists ω'. split; [exact N|]. split; [exact C1|]. split; [exact C2|exact Hb].
Defined.


Lemma heartbeat_key_set_is_key_deleted_witness :
  json_Marshal_work {| work_Queue := "default"; RunAt := 0;
                       work_Payload := job_Payload (job "Echo") |}
  = inr "work:default:Echo"
  ∧ last (written (fst (fst (worker_start w1 fresh (job "Echo") (world [])))))
    = Some (Cmd "SET" ["resque:worker:w1"; "work:default:Echo"])
  ∧ last (written (fst (fst (worker_finish w1 fresh (job "Fail")
                                (Some (PlainError "no luck")) (world [])))))
    = Some (Cmd "DEL" ["resque:worker:w1"]).
Proof.
  split; [reflexivity|].
  destruct (heartbeat_key_set_is_key_deleted w1 fresh fresh (job "Echo") (job "Fail")
              (Some (PlainError "no luck")) (world []) (world [])
              "work:default:Echo") as (S & D & _); [reflexivity|].
  split; [exact S|exact D].
Defined.

Lemma finish_deletes_heartbeat_when_marshal_fails_witness :
  let busy := fst (fst (worker_start w1 fresh (job "Echo") (world []))) in
  json_Marshal_failure (failure_of w1 (job "NaN") (PlainError "no luck") 0)
  = inl (PlainError "json: unsupported value")
  ∧ server busy !! "resque:worker:w1" = Some (RString "work:default:Echo")
  ∧ wire (fst (fst (worker_finish w1 busy (job "NaN") (Some (PlainError "no luck")) (world []))))
    = wire busy ++ [pending busy ++ [Cmd "DEL" ["resque:worker:w1"]]]
  ∧ server (fst (fst (worker_finish w1 busy (job "NaN") (Some (PlainError "no luck")) (world []))))
      !! "resque:worker:w1" = None.
Proof.
  intros busy. split; [reflexivity|]. split; [reflexivity|].
  destruct (finish_deletes_heartbeat_when_marshal_fails w1 busy (job "NaN")
              (PlainError "no luck") (world [])
              (PlainError "json: unsupported value"))
    as (_ & _ & _ & _ & W & S); [reflexivity|].
  split; [exact W|exact S].
Defined.

(** The connection is down at the start of [run] and back at its finish
    stage: [finish] runs with the connection error, and a Failure Record
    reaches the store. *)
Lemma run_reports_the_connection_error :
  let ω' := snd (worker_run w1 (job "Echo") echo (world [down; None])) in
  head (pool (world [down; None])) = Some down
  ∧ trace ω'
    = [Logged Critical "Error on getting connection in worker on start %v: %v"
         [LStr "w1"; LStr "dial tcp: connection refused"];
       Finishing (job "Echo") down]
  ∧ wire (redis ω')
    = [[Cmd "RPUSH" ["resque:failed"; "failure:dial tcp: connection refused"];
        Cmd "DEL" ["resque:worker:w1"]]]
  ∧ list_at (server (redis ω')) "resque:failed"
    = ["failure:dial tcp: connection refused"]
  ∧ ¬ (server (redis ω') = server (redis (world [down; None]))).
Proof.
  repeat split. intros E.
  apply (f_equal (λ st, list_at st "resque:failed")) in E.
  vm_compute in E. discriminate.
Qed.

Lemma run_without_connection_at_start_witness :
  let ω' := snd (worker_run w1 (job "Echo") echo (world [down; down])) in
  head (pool (world [down; down])) = Some down
  ∧ redis ω' = redis (world [down; down])
  ∧ trace ω'
    = [Logged Critical "Error on getting connection in worker on start %v: %v"
         [LStr "w1"; LStr "dial tcp: connection refused"];
       Logged Critical "Error on getting connection in worker on finish %v: %v"
         [LStr "w1"; LStr "dial tcp: connection refused"]].
Proof.
  intros ω'. split; [reflexivity|].
  destruct (run_without_connection_at_start w1 (job "Echo") echo (world [down; down])
              (PlainError "dial tcp: connection refused"))
    as (_ & _ & _ & _ & R & T); [reflexivity|].
  split; [exact R|exact T].
Defined.

(** The work function panics and the connection is down at the finish stage
    of [run]: [finish] is not called, and the heartbeat key stays. *)
Lemma run_drops_the_recovered_panic :
  let ω' := snd (worker_run w1 (job "Boom") boom (world [None; down])) in
  boom "default" ["hi"] = Panic (PanicString "boom") ("goroutine 1" +:+ String LF "main.go:7")
  ∧ trace ω'
    = [Logged Debug "Processing %s since %s [%v]" [LStr "default"; LTime 0; LStr "Boom"];
       Invoked "default" ["hi"];
       Logged Critical "Error on getting connection in worker on finish %v: %v"
         [LStr "w1"; LStr "dial tcp: connection refused"]]
  ∧ (∀ err, Finishing (job "Boom") err ∉ trace ω')
  ∧ wire (redis ω') = [[Cmd "SET" ["resque:worker:w1"; "work:default:Boom"]]]
  ∧ list_at (server (redis ω')) "resque:failed" = [].
Proof.
  repeat split. intros err In. vm_compute in In.
  repeat (apply elem_of_cons in In as [In|In]; [discriminate|]).
  by apply elem_of_nil in In.
Qed.

Lemma run_recovers_panic_witness :
  let ω' := snd (worker_run w1 (job "Boom") boom (world [])) in
  acquires 0 (world []) = true
  ∧ boom "default" ["hi"] = Panic (PanicString "boom") ("goroutine 1" +:+ String LF "main.go:7")
  ∧ fst (worker_run w1 (job "Boom") boom (world [])) = None
  ∧ trace ω'
    = trace (snd (run_body w1 (job "Boom") boom (world []))) ++
      [Finishing (job "Boom")
         (Some (WorkerErrorPtr (NewWorkerError "boom" ["goroutine 1"; "main.go:7"])))].
Proof.
  intros ω'. split; [reflexivity|]. split; [reflexivity|].
  destruct (run_recovers_panic w1 (job "Boom") boom (world [])
              (PanicString "boom") ("goroutine 1" +:+ String LF "main.go:7"))
    as (_ & _ & _ & _ & _ & R & (_ & T) & _); [reflexivity|reflexivity|].
  split; [by rewrite R|exact T].
Defined.

(** A job without a work function arrives while the connection is down:
    no Failure Record is appended. *)
Lemma unregistered_job_is_not_reported :
  let ω' := snd (drain w1 [job "Nope"] (world [down])) in
  workers !! Class (job_Payload (job "Nope")) = None
  ∧ trace ω'
    = [Logged Critical "No worker for Nope in queue default with args [hi]" [];
       Logged Critical "Error on getting connection in worker %v: %v"
         [LStr "w1"; LStr "dial tcp: connection refused"]]
  ∧ wire (redis ω') = []
  ∧ list_at (server (redis ω')) "resque:failed" = [].
Proof. repeat split. Qed.

Lemma unregistered_job_is_reported_witness :
  workers !! Class (job_Payload (job "Nope")) = None
  ∧ ∃ ω2,
      next w1 (job "Nope") (world []) = Some ω2
      ∧ trace ω2
        = [Logged Critical "No worker for Nope in queue default with args [hi]" [];
           Finishing (job "Nope")
             (Some (PlainError "No worker for Nope in queue default with args [hi]"))]
      ∧ wire (redis ω2)
        = [[Cmd "RPUSH" ["resque:failed";
                         "failure:No worker for Nope in queue default with args [hi]"];
            Cmd "DEL" ["resque:worker:w1"]]].
Proof.
  split; [reflexivity|].
  destruct (unregistered_job_is_reported w1 (job "Nope") [] (world []))
    as (_ & _ & ω2 & N & _ & T & R); [reflexivity|].
  exists ω2. split; [exact N|]. split; [exact T|].
  destruct (R "failure:No worker for Nope in queue default with args [hi]")
    as (_ & _ & ->); reflexivity.
Defined.

(** [start] on a fresh connection: the set is written and executed when
    [start] returns, and nothing is left in the buffer for the caller to
    flush. *)
Lemma start_flushes_the_connection :
  let conn' := fst (fst (worker_start w1 fresh (job "Echo") (world []))) in
  pending conn' = []
  ∧ wire conn' = [[Cmd "SET" ["resque:worker:w1"; "work:default:Echo"]]]
  ∧ server conn' !! "resque:worker:w1" = Some (RString "work:default:Echo")
  ∧ ¬ (wire conn' = wire fresh
       ∧ pending conn' = [Cmd "SET" ["resque:worker:w1"; "work:default:Echo"]]).
Proof. repeat split. by intros [E _]. Qed.

(** The announce of [work] succeeds, the first job has no work function and
    the connection for its report is down: the loop returns with a job still
    to come, whose work function is never called. *)
Lemma loop_returns_on_a_report_without_connection :
  let r := worker_work w1 [job "Nope"; job "Echo"] (world [None; down]) in
  acquires 0 (world [None; down]) = true
  ∧ workers !! Class (job_Payload (job "Echo")) = Some echo
  ∧ fst r = Drained (Returned [job "Echo"])
  ∧ fst r ≠ Drained ChannelClosed
  ∧ fst r ≠ NotStarted
  ∧ trace (snd r)
    = [Logged Critical "No worker for Nope in queue default with args [hi]" [];
       Logged Critical "Error on getting connection in worker %v: %v"
         [LStr "w1"; LStr "dial tcp: connection refused"]].
Proof. repeat split; done. Qed.

(** With the connection up the loop goes through every job, registered or
    not; with the connection down it goes through registered jobs. *)
Lemma loop_goes_through_example :
  fst (drain w1 [job "Nope"; job "Fail"; job "Boom"; job "Echo"] (world [])) = ChannelClosed
  ∧ fst (drain w1 [job "Fail"; job "Boom"; job "Echo"] (world [down; down; down; down; down; down]))
    = ChannelClosed.
Proof. split; reflexivity. Qed.

(** The properties of the whole on the concrete package. *)

Lemma drain_keeps_buffer_empty_witness :
  pending (redis (world [None; down; down])) = []
  ∧ pending (redis (snd (drain w1 [job "Echo"; job "Nope"; job "Boom"]
                           (world [None; down; down])))) = [].
Proof.
  split; [reflexivity|].
  apply (drain_keeps_buffer_empty w1 [job "Echo"; job "Nope"; job "Boom"]
           (world [None; down; down])).
  reflexivity.
Defined.

Lemma job_done_leaves_other_keys_witness :
  workers !! Class (job_Payload (job "Echo")) = Some echo
  ∧ acquires 0 (world []) = true
  ∧ acquires 1 (world []) = true
  ∧ ∃ ω',
      drain w1 [job "Echo"] (world []) = (ChannelClosed, ω')
      ∧ list_at (server (redis ω')) "resque:failed" = [].
Proof.
  split; [reflexivity|]. split; [reflexivity|]. split; [reflexivity|].
  destruct (job_done_leaves_other_keys w1 (job "Echo") echo (world []))
    as (ω' & D & _ & F);
    [reflexivity | reflexivity | reflexivity | reflexivity | reflexivity |].
  exists ω'. split; [exact D|exact F].
Defined.

Lemma failure_is_appended_once_witness :
  let once := fst (fst (worker_finish w1 fresh (job "Fail")
                          (Some (PlainError "no luck")) (world []))) in
  let twice := fst (fst (worker_finish w1 once (job "Fail")
                           (Some (PlainError "again")) (world []))) in
  json_Marshal_failure (failure_of w1 (job "Fail") (PlainError "again") 0)
  = inr "failure:again"
  ∧ list_at (settled once) "resque:failed" = ["failure:no luck"]
  ∧ list_at (server twice) "resque:failed" = ["failure:no luck"; "failure:again"].
Proof.
  intros once twice. split; [reflexivity|]. split; [reflexivity|].
  assert (T : list_at (server twice) failed_key
              = list_at (settled once) failed_key ++ ["failure:again"]).
  { apply (failure_is_appended_once w1 once (job "Fail") (PlainError "again") (world [])
             "failure:again").
    - reflexivity.
    - right. exists ["failure:no luck"]. reflexivity.
    - intros c. reflexivity. }
  exact T.
Defined.

Lemma drain_finishes_every_job_once_witness :
  let jobs := [job "Echo"; job "Nope"; job "Boom"; job "Fail"; job "Silent"] in
  store_up (world [])
  ∧ (∀ j, j ∈ jobs → readable j)
  ∧ ∃ ω',
      drain w1 jobs (world []) = (ChannelClosed, ω')
      ∧ finishings (trace ω')
        = [(job "Echo", Good None);
           (job "Nope",
            Good (Some (PlainError "No worker for Nope in queue default with args [hi]")));
           (job "Boom",
            Good (Some (WorkerErrorPtr (NewWorkerError "boom" ["goroutine 1"; "main.go:7"]))));
           (job "Fail", Good (Some (PlainError "no luck")));
           (job "Silent", Good None)]
      ∧ invocations (trace ω')
        = [("default", ["hi"]); ("default", ["hi"]); ("default", ["hi"]);
           ("default", ["hi"])].
Proof.
  intros jobs.
  assert (R : ∀ j, j ∈ jobs → readable j).
  { intros j Hj.
    repeat (apply elem_of_cons in Hj as [-> | Hj];
            [vm_compute; try done; intros bad E; discriminate E|]).
    by apply elem_of_nil in Hj. }
  split; [constructor|]. split; [exact R|].
  destruct (drain_finishes_every_job_once w1 jobs (world []))
    as (ω' & D & _ & F & I); [constructor|exact R|].
  exists ω'. split; [exact D|]. split; [exact F|exact I].
Defined.

Lemma drain_drops_jobs_while_store_down_witness :
  let errs := replicate 4 (PlainError "dial tcp: connection refused") in
  pool (world [down; down; down; down; None]) = (Some <$> errs) ++ [None]
  ∧ ∃ ω',
      drain w1 [job "Echo"; job "Boom"] (world [down; down; down; down; None])
      = (ChannelClosed, ω')
      ∧ redis ω' = fresh
      ∧ pool ω' = [None]
      ∧ invocations (trace ω') = []
      ∧ finishings (trace ω') = [].
Proof.
  intros errs. split; [reflexivity|].
  destruct (drain_drops_jobs_while_store_down w1 [job "Echo"; job "Boom"]
              (world [down; down; down; down; None]) errs [None])
    as (ω' & D & R & P & I & F).
  - intros j Hj.
    repeat (apply elem_of_cons in Hj as [-> | Hj]; [eexists; reflexivity|]).
    by apply elem_of_nil in Hj.
  - reflexivity.
  - reflexivity.
  - exists ω'. split; [exact D|]. split; [exact R|]. split; [exact P|].
    split; [exact I|exact F].
Defined.

Lemma work_finishes_every_job_once_witness :
  let jobs := [job "Fail"; job "Echo"] in
  store_up (world [])
  ∧ (∀ j, j ∈ jobs → readable j)
  ∧ ∃ ω',
      worker_work w1 jobs (world []) = (Drained ChannelClosed, ω')
      ∧ finishings (trace ω')
        = [(job "Fail", Good (Some (PlainError "no luck"))); (job "Echo", Good None)]
      ∧ monitor ω' = 0.
Proof.
  intros jobs.
  assert (R : ∀ j, j ∈ jobs → readable j).
  { intros j Hj.
    repeat (apply elem_of_cons in Hj as [-> | Hj];
            [vm_compute; try done; intros bad E; discriminate E|]).
    by apply elem_of_nil in Hj. }
  split; [constructor|]. split; [exact R|].
  destruct (work_finishes_every_job_once w1 jobs (world []))
    as (ω1 & ω' & _ & E & _ & _ & F & _ & Mo); [constructor|exact R|].
  exists ω'. split; [exact E|]. split; [exact F|exact Mo].
Defined.

Lemma run_leaves_heartbeat_without_connection_at_finish_witness :
  let ω' := snd (worker_run w1 (job "Boom") boom (world [None; down])) in
  acquires 0 (world [None; down]) = true
  ∧ pool (world [None; down]) !! 1%nat = Some down
  ∧ server (redis ω') !! "resque:worker:w1" = Some (RString "work:default:Boom")
  ∧ finishings (trace ω') = [].
Proof.
  intros ω'. split; [reflexivity|]. split; [reflexivity|].
  destruct (run_leaves_heartbeat_without_connection_at_finish w1 (job "Boom") boom
              (world [None; down]) (PlainError "dial tcp: connection refused")
              "work:default:Boom") as (S & F & _);
    [reflexivity | reflexivity | reflexivity | reflexivity |].
  split; [exact S|exact F].
Defined.

Lemma drain_stops_only_without_connection_for_report_witness :
  let jobs := [job "Fail"; job "Boom"; job "Silent"; job "Nope"; job "Echo"] in
  let ω := world [down; None; None; down] in
  (∀ j, j ∈ jobs → readable j)
  ∧ fst (drain w1 jobs ω) = ChannelClosed
  ∧ (∀ rest, fst (drain w1 jobs ω) ≠ Crashed rest)
  ∧ (fst (worker_work w1 jobs ω) = NotStarted ↔ ∃ e, head (pool ω) = Some (Some e)).
Proof.
  intros jobs ω.
  assert (R : ∀ j, j ∈ jobs → readable j).
  { intros j Hj.
    repeat (apply elem_of_cons in Hj as [-> | Hj];
            [vm_compute; try done; intros bad E; discriminate E|]).
    by apply elem_of_nil in Hj. }
  split; [exact R|]. split; [reflexivity|].
  destruct (drain_stops_only_without_connection_for_report w1 jobs ω R)
    as (C & _ & _ & _ & N).
  split; [exact C|exact N].
Defined.

(** C4: [finish] is given a non-nil [error] that holds a nil [*WorkerError],
    as the work function of ["Nil"] returns it, on a connection where the
    heartbeat key is set.  [fail] panics at [typedError.Backtrace] before
    anything is sent, so that [finish] does not return: the delete of the
    heartbeat key is not buffered and nothing is flushed.  Through [run],
    whose deferred [recover()] has already run, the only batch on the wire
    is the set of [start], the heartbeat key stays on the server, and the
    panic ends the loop with a job still to come. *)
Theorem finish_panics_on_nil_worker_error :
  let busy := fst (fst (worker_start w1 fresh (job "Nil") (world []))) in
  let r := worker_run w1 (job "Nil") typed_nil (world []) in
  server busy !! "resque:worker:w1" = Some (RString "work:default:Nil")
  ∧ fst (worker_fail_any w1 busy (job "Nil") (Bad NilPointer) (world []))
    = inr nil_dereference
  ∧ fst (worker_finish_any w1 busy (job "Nil") (Bad NilPointer) (world []))
    = inr nil_dereference
  ∧ workers !! Class (job_Payload (job "Nil")) = Some typed_nil
  ∧ typed_nil "default" ["hi"] = ReturnBad NilPointer
  ∧ fst r = Some nil_dereference
  ∧ trace (snd r)
    = [Logged Debug "Processing %s since %s [%v]" [LStr "default"; LTime 0; LStr "Nil"];
       Invoked "default" ["hi"];
       FinishingBad (job "Nil") NilPointer]
  ∧ wire (redis (snd r)) = [[Cmd "SET" ["resque:worker:w1"; "work:default:Nil"]]]
  ∧ server (redis (snd r)) !! "resque:worker:w1" = Some (RString "work:default:Nil")
  ∧ fst (drain w1 [job "Nil"; job "Echo"] (world [])) = Crashed [job "Echo"].
Proof. repeat split. Qed.


Lemma unreadable_error_ends_goroutine_witness :
  let ω' := snd (worker_run w1 (job "Nil") typed_nil (world [])) in
  workers !! Class (job_Payload (job "Nil")) = Some typed_nil
  ∧ acquires 0 (world []) = true
  ∧ acquires 1 (world []) = true
  ∧ drain w1 [job "Nil"; job "Echo"] (world []) = (Crashed [job "Echo"], ω')
  ∧ finishings (trace ω') = [(job "Nil", Bad NilPointer)]
  ∧ server (redis ω') !! "resque:worker:w1" = Some (RString "work:default:Nil").
Proof.
  intros ω'. split; [reflexivity|]. split; [reflexivity|]. split; [reflexivity|].
  destruct (unreadable_error_ends_goroutine w1 (job "Nil") typed_nil [job "Echo"]
              (world []) NilPointer "work:default:Nil")
    as (_ & D & F & _ & _ & S);
    [reflexivity | reflexivity | reflexivity | reflexivity | reflexivity | reflexivity |].
  split; [exact D|]. split; [exact F|exact S].
Defined.

Lemma nil_panic_is_counted_as_success_witness :
  workers !! Class (job_Payload (job "Silent")) = Some silent
  ∧ silent "default" ["hi"] = PanicNil "goroutine 1"
  ∧ ∃ ω',
      drain w1 [job "Silent"] (world []) = (ChannelClosed, ω')
      ∧ finishings (trace ω') = [(job "Silent", Good None)]
      ∧ counter (server (redis ω')) "resque:stat:processed" = 1
      ∧ list_at (server (redis ω')) "resque:failed" = [].
Proof.
  split; [reflexivity|]. split; [reflexivity|].
  destruct (nil_panic_is_counted_as_success w1 (job "Silent") silent (world [])
              "goroutine 1")
    as (ω' & D & F & C1 & _ & Lf);
    [reflexivity | reflexivity | reflexivity | reflexivity | reflexivity
    | by left | by left |].
  exists ω'. split; [exact D|]. split; [exact F|]. split; [exact C1|exact Lf].
Defined.
